(** * Organisation profile aggregator: collectors and merger

    A shallow embedding of [app/services/bitbucket.py],
    [app/services/github.py] and [app/tools/combine.py].

    - Parsed JSON bodies and the dictionaries the collectors return are
      [value]s; JSON floating point numbers are outside the model, and so
      are integers of more than 4300 digits, which the parser of the
      interpreter refuses.
    - A string is a sequence of code points below 256, one [ascii] each;
      [str.split], [str.lower] and [int] are embedded as they act on these.
    - Python exceptions are the [exn] cases of a result; a loop that does not
      end shows as [Diverge] once the fuel of the model is used up.
    - [requests.get] is a transport: a state [W] with a [fetch] function, so
      that both a fixed URL table and a mock that answers call by call are
      instances.  Every request made is logged in a trace.
    - [combine] is modelled over a store of mutable objects, because what it
      shares with its arguments matters. *)

From Stdlib Require Import ZArith String Ascii List Lia.
From stdpp Require Import base option list strings gmap pretty.

Local Open Scope Z_scope.
Local Open Scope string_scope.

(** ** Exceptions and results *)

Inductive exn :=
| ValueError
| ConnectionResetError
| KeyError
| TypeError
| AttributeError
| IndexError.

Global Instance exn_eq_dec : EqDecision exn.
Proof. solve_decision. Defined.

Inductive res (A : Type) :=
| Ret (a : A)
| Raise (e : exn)
| Diverge.
Global Arguments Ret {A} a.
Global Arguments Raise {A} e.
Global Arguments Diverge {A}.

(** ** Python values *)

(** What a [set] holds.  Python compares [True] with [1] and [False] with
    [0] as equal and hashes them alike, so a boolean is stored as its
    integer. *)
Inductive hashable :=
| HNone
| HInt (z : Z)
| HStr (s : string).

Global Instance hashable_eq_dec : EqDecision hashable.
Proof. solve_decision. Defined.

Definition hashable_code (h : hashable) : unit + Z + string :=
  match h with
  | HNone => inl (inl tt)
  | HInt z => inl (inr z)
  | HStr s => inr s
  end.

Definition hashable_decode (c : unit + Z + string) : hashable :=
  match c with
  | inl (inl _) => HNone
  | inl (inr z) => HInt z
  | inr s => HStr s
  end.

Global Instance hashable_countable : Countable hashable.
Proof.
  apply (inj_countable' hashable_code hashable_decode).
  intros []; reflexivity.
Defined.

#[local] Set Warnings "-register-all".
Inductive value :=
| VNone
| VBool (b : bool)
| VInt (z : Z)
| VStr (s : string)
| VList (l : list value)
| VSet (s : gset hashable)
| VDict (d : list (string * value)).

Definition unhash (h : hashable) : value :=
  match h with
  | HNone => VNone
  | HInt z => VInt z
  | HStr s => VStr s
  end.

(** [hash(v)]: lists, sets and dicts are unhashable. *)
Definition hash_key (v : value) : res hashable :=
  match v with
  | VNone => Ret HNone
  | VBool b => Ret (HInt (if b then 1 else 0))
  | VInt z => Ret (HInt z)
  | VStr s => Ret (HStr s)
  | VList _ | VSet _ | VDict _ => Raise TypeError
  end.

(** [bool(v)] *)
Definition truthy (v : value) : bool :=
  match v with
  | VNone => false
  | VBool b => b
  | VInt z => negb (z =? 0)%Z
  | VStr s => negb (String.eqb s "")
  | VList l => match l with [] => false | _ => true end
  | VSet s => negb (bool_decide (s = ∅))
  | VDict d => match d with [] => false | _ => true end
  end.

Fixpoint assoc {A : Type} (k : string) (d : list (string * A)) : option A :=
  match d with
  | [] => None
  | (k', v) :: d' => if String.eqb k k' then Some v else assoc k d'
  end.

(** [d[k] = v] on a dict kept in insertion order. *)
Fixpoint dict_set {A : Type} (k : string) (v : A) (d : list (string * A))
  : list (string * A) :=
  match d with
  | [] => [(k, v)]
  | (k', v') :: d' =>
      if String.eqb k k' then (k, v) :: d' else (k', v') :: dict_set k v d'
  end.

(** [v[k]] for a string key [k]. *)
Definition getitem (v : value) (k : string) : res value :=
  match v with
  | VDict d => match assoc k d with Some x => Ret x | None => Raise KeyError end
  | _ => Raise TypeError
  end.

(** [v.get(k)] *)
Definition py_get (v : value) (k : string) : res value :=
  match v with
  | VDict d => Ret (default VNone (assoc k d))
  | _ => Raise AttributeError
  end.

Fixpoint chars (s : string) : list string :=
  match s with
  | EmptyString => []
  | String c s' => String c EmptyString :: chars s'
  end.

(** [len(v)] *)
Definition py_len (v : value) : res Z :=
  match v with
  | VStr s => Ret (Z.of_nat (String.length s))
  | VList l => Ret (Z.of_nat (length l))
  | VSet s => Ret (Z.of_nat (size s))
  | VDict d => Ret (Z.of_nat (length d))
  | VNone | VBool _ | VInt _ => Raise TypeError
  end.

(** The items a [for] loop, [list.extend] or [set.update] sees.  A set is
    listed in one order for each contents; the interpreter's order also
    depends on how the set was built, so a statement about such a list is
    about its members, or compares sets built in the same way. *)
Definition py_iter (v : value) : res (list value) :=
  match v with
  | VStr s => Ret (VStr <$> chars s)
  | VList l => Ret l
  | VSet s => Ret (unhash <$> elements s)
  | VDict d => Ret ((λ kv, VStr kv.1) <$> d)
  | VNone | VBool _ | VInt _ => Raise TypeError
  end.

Definition int_of_bool (b : bool) : Z := if b then 1 else 0.

(** [a += b] for the accumulators of the collectors: integers add, a list
    is extended by the items of [b]. *)
Definition py_iadd (a b : value) : res value :=
  match a, b with
  | VInt x, VInt y => Ret (VInt (x + y))
  | VInt x, VBool y => Ret (VInt (x + int_of_bool y))
  | VBool x, VInt y => Ret (VInt (int_of_bool x + y))
  | VBool x, VBool y => Ret (VInt (int_of_bool x + int_of_bool y))
  | VStr x, VStr y => Ret (VStr (x +:+ y))
  | VList l, _ =>
      match py_iter b with
      | Ret items => Ret (VList (l ++ items))
      | Raise e => Raise e
      | Diverge => Diverge
      end
  | _, _ => Raise TypeError
  end.

(** ** Strings *)

(** [str.isspace] of a character, which is what [str.split()] splits at:
    the code points 9 to 13, 28 to 32, 133 (U+0085) and 160 (U+00A0). *)
Definition py_isspace (c : ascii) : bool :=
  let n := nat_of_ascii c in
  ((9 <=? n)%nat && (n <=? 13)%nat) || ((28 <=? n)%nat && (n <=? 32)%nat)
  || (n =? 133)%nat || (n =? 160)%nat.

(** [s.split()]: the maximal runs of non-blank characters. *)
Fixpoint split_ws_go (cur : string) (s : string) : list string :=
  match s with
  | EmptyString => if String.eqb cur "" then [] else [String.rev cur]
  | String c s' =>
      if py_isspace c
      then (if String.eqb cur "" then [] else [String.rev cur])
             ++ split_ws_go "" s'
      else split_ws_go (String c cur) s'
  end.

Definition split_ws (s : string) : list string := split_ws_go "" s.

(** [sep.join(parts)] *)
Fixpoint join (sep : string) (parts : list string) : string :=
  match parts with
  | [] => ""
  | [p] => p
  | p :: ps => p +:+ sep +:+ join sep ps
  end.

(** ** The state and error monad *)

Definition M (S A : Type) : Type := S → res A * S.

Definition ret {S A} (a : A) : M S A := λ s, (Ret a, s).

Definition bind {S A B} (m : M S A) (k : A → M S B) : M S B :=
  λ s, match m s with
       | (Ret a, s') => k a s'
       | (Raise e, s') => (Raise e, s')
       | (Diverge, s') => (Diverge, s')
       end.

Definition raise {S A} (e : exn) : M S A := λ s, (Raise e, s).

Definition diverge {S A} : M S A := λ s, (Diverge, s).

Definition lift_res {S A} (r : res A) : M S A := λ s, (r, s).

Definition get {S} : M S S := λ s, (Ret s, s).

Definition modify {S} (f : S → S) : M S unit := λ s, (Ret tt, f s).

(** [try: m  except e: h]: the state reached when [e] was raised is kept. *)
Definition try_except {S A} (m : M S A) (e : exn) (h : M S A) : M S A :=
  λ s, match m s with
       | (Raise e', s') => if decide (e' = e) then h s' else (Raise e', s')
       | r => r
       end.

(** Runs [m] under a state extended by one component: the attributes of
    [self] over the network, or a local variable that outlives a [try]. *)
Definition lift {L S A} (m : M S A) : M (L * S) A :=
  λ ls, let '(r, s') := m ls.2 in (r, (ls.1, s')).

Definition get_local {L S} : M (L * S) L := λ ls, (Ret ls.1, ls).

Definition set_local {L S} (l : L) : M (L * S) unit :=
  λ ls, (Ret tt, (l, ls.2)).

(** A block with one local variable, started at [l0] and forgotten at the
    end. *)
Definition with_local {L S A} (l0 : L) (m : M (L * S) A) : M S A :=
  λ s, let '(r, ls) := m (l0, s) in (r, ls.2).

Notation "'let*' x := m 'in' k" := (bind m (λ x, k))
  (at level 10, x name, m at level 100, k at level 200).
Notation "m ;;; k" := (bind m (λ _, k))
  (at level 100, k at level 200, right associativity).

(** [for x in xs: body x] *)
Fixpoint for_each {S A} (xs : list A) (body : A → M S unit) : M S unit :=
  match xs with
  | [] => ret tt
  | x :: xs' => body x ;;; for_each xs' body
  end.

(** ** The transport *)

Record request := Request {
  rq_url : string;
  rq_headers : list (string * string)
}.

(** What [requests.get] does: it raises a [RequestException] when the server
    cannot be reached, and otherwise returns a response with its [ok] flag,
    parsed body and headers (header names in lower case). *)
Inductive response :=
| Response (ok : bool) (body : value) (headers : list (string * string))
| RequestException.

Class Transport (W : Type) := fetch : W → request → response * W.

Record net (W : Type) := Net {
  world : W;
  trace : list request
}.
Global Arguments Net {W} world trace.
Global Arguments world {W} n.
Global Arguments trace {W} n.

Definition requests_get `{Transport W} (rq : request) : M (net W) response :=
  λ n, let '(r, w') := fetch (world n) rq in
       (Ret r, Net w' (trace n ++ [rq])).

(** ** The Bitbucket collector *)

Module Bitbucket.

Record repo_count := RepoCount { forked : Z; unforked : Z }.

(** The attributes of an instance.  [repos] is the dict
    [{'forked': _, 'unforked': _}], only ever read and written at these two
    keys. *)
Record t := Self {
  followers : Z;
  languages : gset hashable;
  org : string;
  repos : repo_count;
  results : list (string * value);
  url : string;
  watchers : Z
}.

Definition init_version (org version : string) : t :=
  {| followers := 0;
     languages := ∅;
     org := org;
     repos := RepoCount 0 0;
     results := [];
     url := "https://api.bitbucket.org/" +:+ version;
     watchers := 0 |}.

Definition init (org : string) : t := init_version org "2.0".

Definition repos_value (r : repo_count) : value :=
  VDict [("forked", VInt (forked r)); ("unforked", VInt (unforked r))].

Definition set_followers (x : Z) (b : t) : t :=
  Self x (languages b) (org b) (repos b) (results b) (url b) (watchers b).
Definition set_languages (x : gset hashable) (b : t) : t :=
  Self (followers b) x (org b) (repos b) (results b) (url b) (watchers b).
Definition set_repos (x : repo_count) (b : t) : t :=
  Self (followers b) (languages b) (org b) x (results b) (url b) (watchers b).
Definition set_results (x : list (string * value)) (b : t) : t :=
  Self (followers b) (languages b) (org b) (repos b) x (url b) (watchers b).
Definition set_watchers (x : Z) (b : t) : t :=
  Self (followers b) (languages b) (org b) (repos b) (results b) (url b) x.

Definition incr_forked (b : t) : t :=
  set_repos (RepoCount (forked (repos b) + 1) (unforked (repos b))) b.
Definition incr_unforked (b : t) : t :=
  set_repos (RepoCount (forked (repos b)) (unforked (repos b) + 1)) b.

(** [get_result]: a page without ['values'] counts as empty. *)
Definition get_result (page_results : value) (data : bool) : res value :=
  match getitem page_results "values" with
  | Ret v => if data then Ret v
             else match py_len v with
                  | Ret n => Ret (VInt n)
                  | Raise e => Raise e
                  | Diverge => Diverge
                  end
  | Raise KeyError => if data then Ret (VList []) else Ret (VInt 0)
  | Raise e => Raise e
  | Diverge => Diverge
  end.

Section WithTransport.
Context {W : Type} `{!Transport W}.

(** [make_api_call]: [requests] refuses a URL that is not a string with a
    [RequestException], like a server that cannot be reached. *)
Definition make_api_call (url : value) : M (net W) value :=
  match url with
  | VStr u =>
      let* r := requests_get (Request u []) in
      match r with
      | Response true body _ => ret body
      | Response false _ _ => raise ValueError
      | RequestException => raise ConnectionResetError
      end
  | _ => raise ConnectionResetError
  end.

(** The [while results_remaining] loop; the local [paginated_results] is
    the first component of the state. *)
Fixpoint paginate (fuel : nat) (link : value) (data : bool)
  : M (value * net W) unit :=
  match fuel with
  | O => diverge
  | S fuel' =>
      let* page_results := lift (make_api_call link) in
      let* r := lift_res (get_result page_results data) in
      let* acc := get_local in
      let* acc' := lift_res (py_iadd acc r) in
      set_local acc' ;;;
      let* link' := lift_res (py_get page_results "next") in
      if truthy link' then paginate fuel' link' data else ret tt
  end.

Definition get_all_results (fuel : nat) (link : value) (data : bool)
  : M (net W) value :=
  with_local (if data then VList [] else VInt 0)
    (try_except (paginate fuel link data) ValueError (ret tt) ;;;
     get_local).

(** [self.<counter> += results] *)
Definition add_count (current : Z) (results : value) : res Z :=
  match results with
  | VInt n => Ret (current + n)
  | VBool b => Ret (current + int_of_bool b)
  | _ => Raise TypeError
  end.

Definition get_followers_count (fuel : nat) : M (t * net W) unit :=
  let* self := get_local in
  let link := url self +:+ "/teams/" +:+ org self +:+ "/followers?pagelen=100" in
  let* results := lift (get_all_results fuel (VStr link) false) in
  let* self := get_local in
  let* n := lift_res (add_count (followers self) results) in
  set_local (set_followers n self).

Definition update_languages (language : value) : M (t * net W) unit :=
  let* h := lift_res (hash_key language) in
  let* self := get_local in
  set_local (set_languages (languages self ∪ {[h]}) self).

Definition update_repo_count (link : value) : M (t * net W) unit :=
  try_except
    (let* fork := lift (make_api_call link) in
     let* v := lift_res (getitem fork "values") in
     let* self := get_local in
     if truthy v then set_local (incr_forked self)
     else set_local (incr_unforked self))
    ValueError
    (let* self := get_local in set_local (incr_unforked self)).

Definition py_split (v : value) : res (list string) :=
  match v with
  | VStr s => Ret (split_ws s)
  | _ => Raise AttributeError
  end.

Definition update_watchers_count (fuel : nat) (repo : value)
  : M (t * net W) unit :=
  let* parts := lift_res (py_split repo) in
  let repo := join "-" parts in
  let* self := get_local in
  let link := url self +:+ "/repositories/" +:+ org self +:+ "/" +:+ repo
                +:+ "/watchers?pagelen=100" in
  let* results := lift (get_all_results fuel (VStr link) false) in
  let* self := get_local in
  let* n := lift_res (add_count (watchers self) results) in
  set_local (set_watchers n self).

Definition process_repo (fuel : nat) (repo : value) : M (t * net W) unit :=
  let* language := lift_res (getitem repo "language") in
  update_languages language ;;;
  let* links := lift_res (getitem repo "links") in
  let* forks := lift_res (getitem links "forks") in
  let* href := lift_res (getitem forks "href") in
  update_repo_count href ;;;
  let* name := lift_res (getitem repo "name") in
  update_watchers_count fuel name.

Definition process_repos (fuel : nat) : M (t * net W) unit :=
  let* self := get_local in
  let link := url self +:+ "/repositories/" +:+ org self +:+ "?pagelen=100" in
  let* repos := lift (get_all_results fuel (VStr link) true) in
  let* items := lift_res (py_iter repos) in
  for_each items (process_repo fuel) ;;;
  get_followers_count fuel.

Definition finalize (self : t) : t :=
  set_results
    (dict_set "watchers" (VInt (watchers self))
       (dict_set "repos" (repos_value (repos self))
          (dict_set "languages" (VSet (languages self))
             (dict_set "followers" (VInt (followers self))
                (results self)))))
    self.

Definition make_response (fuel : nat) : M (t * net W) value :=
  try_except (process_repos fuel) ConnectionResetError (ret tt) ;;;
  let* self := get_local in
  set_local (finalize self) ;;;
  let* self := get_local in
  ret (VDict (results self)).

(** [Bitbucket(org).make_response()] on a fresh instance. *)
Definition run (fuel : nat) (org : string) (w : W) : res value * (t * net W) :=
  make_response fuel (init org, Net w []).

End WithTransport.
End Bitbucket.

(** ** Two transports *)

(** A mock with a list of answers, one per call ([side_effect]); a call
    beyond the list finds no server. *)
Global Instance script_transport : Transport (list response) :=
  λ w _, match w with
         | r :: w' => (r, w')
         | [] => (RequestException, [])
         end.

(** A fixed table from requests to answers. *)
Global Instance table_transport : Transport (request → response) :=
  λ f rq, (f rq, f).

(** ** Reading the link header *)

Fixpoint strip_prefix (p s : string) : option string :=
  match p, s with
  | EmptyString, _ => Some s
  | String a p', String b s' =>
      if Ascii.eqb a b then strip_prefix p' s' else None
  | String _ _, EmptyString => None
  end.

Definition newline : ascii := "010"%char.

(** The text up to the first line feed, and the text from there on. *)
Fixpoint break_line (s : string) : string * string :=
  match s with
  | EmptyString => ("", "")
  | String c s' =>
      if Ascii.eqb c newline then ("", s)
      else let '(l, r) := break_line s' in (String c l, r)
  end.

(** Splits [t] around its last [>;]. *)
Fixpoint rsplit_close (t : string) : option (string * string) :=
  match t with
  | EmptyString => None
  | String c t' =>
      match rsplit_close t' with
      | Some (before, after) => Some (String c before, after)
      | None =>
          match strip_prefix ">;" t with
          | Some after => Some ("", after)
          | None => None
          end
      end
  end.

(** Right after an occurrence of [page=]: the group that the greedy
    any-characters pattern takes, which ends before the last [>;] of the
    same line, and the text left after that [>;]. *)
Definition capture (t : string) : option (string * string) :=
  let '(l, r) := break_line t in
  match rsplit_close l with
  | Some (group, after) => Some (group, after +:+ r)
  | None => None
  end.

Fixpoint findall_go (fuel : nat) (s : string) : list string :=
  match fuel with
  | O => []
  | S fuel' =>
      match s with
      | EmptyString => []
      | String _ s' =>
          match strip_prefix "page=" s with
          | Some t =>
              match capture t with
              | Some (group, rest) => group :: findall_go fuel' rest
              | None => findall_go fuel' s'
              end
          | None => findall_go fuel' s'
          end
      end
  end.

(** [re.findall] of the pattern [page=], one group of any characters but a
    line feed, [>;]: the groups of the matches from left to right.  Every
    match takes at least one character, so the length of [s] is fuel
    enough. *)
Definition findall_page (s : string) : list string :=
  findall_go (String.length s) s.

Fixpoint split_go (fuel : nat) (sep s : string) : list string :=
  match fuel with
  | O => [s]
  | S fuel' =>
      match strip_prefix sep s with
      | Some rest => "" :: split_go fuel' sep rest
      | None =>
          match s with
          | EmptyString => [""]
          | String c s' =>
              match split_go fuel' sep s' with
              | piece :: pieces => String c piece :: pieces
              | [] => [String c ""]
              end
          end
      end
  end.

(** [s.split(sep)] for a separator that is not empty: the pieces between
    the occurrences of [sep], found from left to right. *)
Definition split_on (sep s : string) : list string :=
  split_go (S (String.length s)) sep s.

Definition digit_val (c : ascii) : option Z :=
  let n := nat_of_ascii c in
  if ((48 <=? n)%nat && (n <=? 57)%nat) then Some (Z.of_nat (n - 48)) else None.

(** Decimal digits, single underscores allowed between two digits. *)
Fixpoint digits_go (acc : Z) (after_digit : bool) (s : string) : option Z :=
  match s with
  | EmptyString => if after_digit then Some acc else None
  | String c s' =>
      match digit_val c with
      | Some d => digits_go (10 * acc + d) true s'
      | None =>
          if Ascii.eqb c "_" && after_digit then digits_go acc false s'
          else None
      end
  end.

(** The blanks that [int] skips around the number: the code points 9 to
    13 and 32, and the blanks 133 (U+0085) and 160 (U+00A0) that it reads
    as a space; the separators 28 to 31 are not among them. *)
Definition int_blank (c : ascii) : bool :=
  let n := nat_of_ascii c in
  ((9 <=? n)%nat && (n <=? 13)%nat) || (n =? 32)%nat
  || (n =? 133)%nat || (n =? 160)%nat.

Fixpoint int_lstrip (s : string) : string :=
  match s with
  | EmptyString => ""
  | String c s' => if int_blank c then int_lstrip s' else s
  end.

Fixpoint int_rstrip (s : string) : string :=
  match s with
  | EmptyString => ""
  | String c s' =>
      match int_rstrip s' with
      | EmptyString => if int_blank c then "" else String c ""
      | r => String c r
      end
  end.

(** [s] without the blanks that [int] skips before and after the number. *)
Definition int_strip (s : string) : string := int_rstrip (int_lstrip s).

Fixpoint count_digits (s : string) : nat :=
  match s with
  | EmptyString => 0
  | String c s' =>
      match digit_val c with
      | Some _ => S (count_digits s')
      | None => count_digits s'
      end
  end.

(** [sys.int_max_str_digits]: the most digits that [int] converts, as the
    interpreter starts with. *)
Definition int_max_str_digits : nat := 4300.

(** [int(s)] in base ten: blanks around, a sign, then digits with single
    underscores between them; what does not read as an integer, or has
    more digits than the limit, raises [ValueError]. *)
Definition py_int (s : string) : res Z :=
  let t := int_strip s in
  let '(sign, body) :=
    match t with
    | String "-" r => (-1, r)
    | String "+" r => (1, r)
    | _ => (1, t)
    end in
  match digits_go 0 false body with
  | Some n =>
      if (int_max_str_digits <? count_digits body)%nat then Raise ValueError
      else Ret (sign * n)
  | None => Raise ValueError
  end.

(** [xs[-1]] *)
Definition py_last {A} (xs : list A) : res A :=
  match last xs with
  | Some x => Ret x
  | None => Raise IndexError
  end.

Definition res_bind {A B} (r : res A) (k : A → res B) : res B :=
  match r with
  | Ret a => k a
  | Raise e => Raise e
  | Diverge => Diverge
  end.

(** The integer after the last [page=] in the last group found:
    [int(re.findall(...)[-1].split('page=')[-1])]. *)
Definition parse_last_page (link_header : string) : res Z :=
  res_bind (py_last (findall_page link_header)) (λ group,
  res_bind (py_last (split_on "page=" group)) py_int).

(** The capital letters among the code points below 256 are [A] to [Z]
    (65 to 90) and 192 to 222 without the sign at 215; the small letter is
    32 further. *)
Definition lower_char (c : ascii) : ascii :=
  let n := nat_of_ascii c in
  if ((65 <=? n)%nat && (n <=? 90)%nat)
     || ((192 <=? n)%nat && (n <=? 222)%nat && negb (n =? 215)%nat)
  then ascii_of_nat (n + 32) else c.

(** [s.lower()] *)
Fixpoint lower (s : string) : string :=
  match s with
  | EmptyString => ""
  | String c s' => String (lower_char c) (lower s')
  end.

(** [s.update(items)]: the items are added one by one, and the ones before
    an unhashable item stay in the set. *)
Fixpoint set_update (s : gset hashable) (items : list value)
  : res unit * gset hashable :=
  match items with
  | [] => (Ret tt, s)
  | x :: items' =>
      match hash_key x with
      | Ret h => set_update (s ∪ {[h]}) items'
      | Raise e => (Raise e, s)
      | Diverge => (Diverge, s)
      end
  end.

(** ** The Github collector *)

Module Github.

Record repo_count := RepoCount { forked : Z; unforked : Z }.

Record t := Self {
  followers : Z;
  languages : gset hashable;
  org : string;
  repos : repo_count;
  results : list (string * value);
  topics : gset hashable;
  url : string;
  watchers : Z
}.

Definition init (org : string) : t :=
  {| followers := 0;
     languages := ∅;
     org := org;
     repos := RepoCount 0 0;
     results := [];
     topics := ∅;
     url := "https://api.github.com";
     watchers := 0 |}.

Definition repos_value (r : repo_count) : value :=
  VDict [("forked", VInt (forked r)); ("unforked", VInt (unforked r))].

Definition set_followers (x : Z) (g : t) : t :=
  Self x (languages g) (org g) (repos g) (results g) (topics g) (url g)
    (watchers g).
Definition set_languages (x : gset hashable) (g : t) : t :=
  Self (followers g) x (org g) (repos g) (results g) (topics g) (url g)
    (watchers g).
Definition set_repos (x : repo_count) (g : t) : t :=
  Self (followers g) (languages g) (org g) x (results g) (topics g) (url g)
    (watchers g).
Definition set_results (x : list (string * value)) (g : t) : t :=
  Self (followers g) (languages g) (org g) (repos g) x (topics g) (url g)
    (watchers g).
Definition set_topics (x : gset hashable) (g : t) : t :=
  Self (followers g) (languages g) (org g) (repos g) (results g) x (url g)
    (watchers g).
Definition set_watchers (x : Z) (g : t) : t :=
  Self (followers g) (languages g) (org g) (repos g) (results g) (topics g)
    (url g) x.

(** The dict [{'results': _, 'headers': _}] that [make_api_call] returns. *)
Record api_data := ApiData {
  data_results : value;
  data_headers : list (string * string)
}.

(** [headers.get('link')] is true: the header is there and not empty. *)
Definition link_header (hs : list (string * string)) : option string :=
  match assoc "link" hs with
  | Some h => if String.eqb h "" then None else Some h
  | None => None
  end.

(** [get_total_pages] *)
Definition get_total_pages (link_header : string) : res Z :=
  parse_last_page link_header.

(** [self.<counter> += x] for an integer counter. *)
Definition add_count (current : Z) (x : value) : res Z :=
  match x with
  | VInt n => Ret (current + n)
  | VBool b => Ret (current + int_of_bool b)
  | _ => Raise TypeError
  end.

(** [list(d.keys())], each key in lower case. *)
Definition lower_keys (v : value) : res (list value) :=
  match v with
  | VDict d => Ret ((λ kv, VStr (lower kv.1)) <$> d)
  | _ => Raise AttributeError
  end.

Section WithTransport.
Context {W : Type} `{!Transport W}.

(** How an f-string prints a list, a set or a dict is left open. *)
Context (repr : value → string).

Definition format (v : value) : string :=
  match v with
  | VNone => "None"
  | VBool true => "True"
  | VBool false => "False"
  | VInt z => pretty z
  | VStr s => s
  | _ => repr v
  end.

Definition make_api_call (url : string) (headers : list (string * string))
  : M (net W) api_data :=
  let* r := requests_get (Request url headers) in
  match r with
  | Response true body hs => ret (ApiData body hs)
  | Response false _ _ => raise ValueError
  | RequestException => raise ConnectionResetError
  end.

(** [results += data['results']] on the local [results]. *)
Definition extend_results (data : api_data) : M (value * net W) unit :=
  let* acc := get_local in
  let* acc' := lift_res (py_iadd acc (data_results data)) in
  set_local acc'.

Definition fetch_page (link : string) (page : Z) : M (value * net W) unit :=
  let url := link +:+ "&page=" +:+ pretty page in
  let* next_data := lift (make_api_call url []) in
  extend_results next_data.

Definition get_all_repos (link : string) : M (net W) value :=
  with_local (VList [])
    (try_except
       (let* data := lift (make_api_call link []) in
        extend_results data ;;;
        match link_header (data_headers data) with
        | Some h =>
            let* total_pages := lift_res (get_total_pages h) in
            for_each (seqZ 2 (total_pages - 1)) (fetch_page link)
        | None => ret tt
        end)
       ValueError (ret tt) ;;;
     get_local).

Definition get_followers_count : M (t * net W) unit :=
  try_except
    (let* self := get_local in
     let link := url self +:+ "/users/" +:+ org self
                   +:+ "/followers?per_page=1" in
     let* data := lift (make_api_call link []) in
     match data_headers data, link_header (data_headers data) with
     | _ :: _, Some h =>
         let* followers := lift_res (parse_last_page h) in
         let* self := get_local in
         set_local (set_followers (Github.followers self + followers) self)
     | _, _ =>
         let* n := lift_res (py_len (data_results data)) in
         let* self := get_local in
         set_local (set_followers (Github.followers self + n) self)
     end)
    ValueError (ret tt).

Definition update_languages (repo : value) : M (t * net W) unit :=
  try_except
    (let* self := get_local in
     let link := url self +:+ "/repos/" +:+ org self +:+ "/" +:+ format repo
                   +:+ "/languages" in
     let headers := [("accept", "application/vnd.github.v3+json")] in
     let* data := lift (make_api_call link headers) in
     let* langs := lift_res (lower_keys (data_results data)) in
     let* self := get_local in
     let '(r, s) := set_update (languages self) langs in
     set_local (set_languages s self) ;;;
     lift_res r)
    ValueError (ret tt).

Definition update_repo_count (forked : value) : M (t * net W) unit :=
  let* self := get_local in
  let r := repos self in
  if truthy forked
  then set_local (set_repos (RepoCount (Github.forked r + 1) (unforked r)) self)
  else set_local (set_repos (RepoCount (Github.forked r) (unforked r + 1)) self).

Definition update_topics (topics : value) : M (t * net W) unit :=
  if truthy topics then
    let* items := lift_res (py_iter topics) in
    let* self := get_local in
    let '(r, s) := set_update (Github.topics self) items in
    set_local (set_topics s self) ;;;
    lift_res r
  else ret tt.

Definition update_watchers_count (watchers : value) : M (t * net W) unit :=
  let* self := get_local in
  let* n := lift_res (add_count (Github.watchers self) watchers) in
  set_local (set_watchers n self).

Definition process_repo (repo : value) : M (t * net W) unit :=
  let* name := lift_res (getitem repo "name") in
  update_languages name ;;;
  let* fork := lift_res (getitem repo "fork") in
  update_repo_count fork ;;;
  let* topics := lift_res (py_get repo "topics") in
  update_topics topics ;;;
  let* watchers := lift_res (getitem repo "watchers") in
  update_watchers_count watchers.

Definition process_repos : M (t * net W) unit :=
  let* self := get_local in
  let link := url self +:+ "/orgs/" +:+ org self +:+ "/repos?per_page=100" in
  let* results := lift (get_all_repos link) in
  let* items := lift_res (py_iter results) in
  for_each items process_repo ;;;
  get_followers_count.

Definition finalize (self : t) : t :=
  set_results
    (dict_set "watchers" (VInt (watchers self))
       (dict_set "topics" (VList (unhash <$> elements (topics self)))
          (dict_set "repos" (repos_value (repos self))
             (dict_set "languages" (VSet (languages self))
                (dict_set "followers" (VInt (followers self))
                   (results self))))))
    self.

Definition make_response : M (t * net W) value :=
  try_except process_repos ConnectionResetError (ret tt) ;;;
  let* self := get_local in
  set_local (finalize self) ;;;
  let* self := get_local in
  ret (VDict (results self)).

(** [Github(org).make_response()] on a fresh instance. *)
Definition run (org : string) (w : W) : res value * (t * net W) :=
  make_response (init org, Net w []).

End WithTransport.
End Github.

(** ** The merger, over a store of objects *)

Module Heap.

Definition loc := positive.

(** What a variable or a slot of a container holds: an immutable scalar or
    a reference to a mutable object. *)
Inductive sval :=
| SNone
| SBool (b : bool)
| SInt (z : Z)
| SStr (s : string)
| SRef (l : loc).

Inductive hobj :=
| HList (xs : list sval)
| HSet (s : gset hashable)
| HDict (d : gmap string sval).

Abbreviation store := (gmap loc hobj).

Definition unhash (h : hashable) : sval :=
  match h with
  | HNone => SNone
  | HInt z => SInt z
  | HStr s => SStr s
  end.

Definition hash_key (v : sval) : res hashable :=
  match v with
  | SNone => Ret HNone
  | SBool b => Ret (HInt (int_of_bool b))
  | SInt z => Ret (HInt z)
  | SStr s => Ret (HStr s)
  | SRef _ => Raise TypeError
  end.

(** A new object gets a location that the store does not use yet. *)
Definition alloc (o : hobj) : M store sval :=
  λ σ, let l := fresh (dom σ) in (Ret (SRef l), <[l := o]> σ).

(** [v[k]] for a string key; a reference always points into the store. *)
Definition getitem (v : sval) (k : string) : M store sval :=
  λ σ, match v with
       | SRef l =>
           match σ !! l with
           | Some (HDict d) =>
               match d !! k with
               | Some x => (Ret x, σ)
               | None => (Raise KeyError, σ)
               end
           | _ => (Raise TypeError, σ)
           end
       | _ => (Raise TypeError, σ)
       end.

(** [v[k] = x] *)
Definition setitem (v : sval) (k : string) (x : sval) : M store unit :=
  λ σ, match v with
       | SRef l =>
           match σ !! l with
           | Some (HDict d) => (Ret tt, <[l := HDict (<[k := x]> d)]> σ)
           | _ => (Raise TypeError, σ)
           end
       | _ => (Raise TypeError, σ)
       end.

(** [a + b]: numbers add, strings and lists are joined into a new object. *)
Definition add (a b : sval) : M store sval :=
  λ σ, match a, b with
       | SInt x, SInt y => (Ret (SInt (x + y)), σ)
       | SInt x, SBool y => (Ret (SInt (x + int_of_bool y)), σ)
       | SBool x, SInt y => (Ret (SInt (int_of_bool x + y)), σ)
       | SBool x, SBool y => (Ret (SInt (int_of_bool x + int_of_bool y)), σ)
       | SStr x, SStr y => (Ret (SStr (x +:+ y)), σ)
       | SRef la, SRef lb =>
           match σ !! la, σ !! lb with
           | Some (HList xs), Some (HList ys) => alloc (HList (xs ++ ys)) σ
           | _, _ => (Raise TypeError, σ)
           end
       | _, _ => (Raise TypeError, σ)
       end.

(** The items that iterating over [v] gives.  The interpreter lists a set
    in an order that depends on how the set was built, and the keys of a
    dict in the order they were added; the model lists either in one order
    for each contents, the one of [elements].  What is stated about such a
    list is therefore its members and that each comes once, never their
    order. *)
Definition iter (v : sval) : M store (list sval) :=
  λ σ, match v with
       | SStr s => (Ret (SStr <$> chars s), σ)
       | SRef l =>
           match σ !! l with
           | Some (HList xs) => (Ret xs, σ)
           | Some (HSet s) => (Ret (unhash <$> elements s), σ)
           | Some (HDict d) => (Ret (SStr <$> elements (dom d)), σ)
           | None => (Raise TypeError, σ)
           end
       | _ => (Raise TypeError, σ)
       end.

(** [len(v)] *)
Definition len (v : sval) : M store sval :=
  λ σ, match v with
       | SStr s => (Ret (SInt (Z.of_nat (String.length s))), σ)
       | SRef l =>
           match σ !! l with
           | Some (HList xs) => (Ret (SInt (Z.of_nat (length xs))), σ)
           | Some (HSet s) => (Ret (SInt (Z.of_nat (size s))), σ)
           | Some (HDict d) => (Ret (SInt (Z.of_nat (size d))), σ)
           | None => (Raise TypeError, σ)
           end
       | _ => (Raise TypeError, σ)
       end.

(** [list(v)] *)
Definition list_of (v : sval) : M store sval :=
  let* items := iter v in
  alloc (HList items).

(** Adds the items one by one; those before an unhashable one stay. *)
Fixpoint add_all (s : gset hashable) (items : list sval)
  : res unit * gset hashable :=
  match items with
  | [] => (Ret tt, s)
  | x :: items' =>
      match hash_key x with
      | Ret h => add_all (s ∪ {[h]}) items'
      | Raise e => (Raise e, s)
      | Diverge => (Diverge, s)
      end
  end.

(** [target.update(v)] for a set [target]. *)
Definition set_update (target v : sval) : M store unit :=
  let* items := iter v in
  λ σ, match target with
       | SRef l =>
           match σ !! l with
           | Some (HSet s) =>
               let '(r, s') := add_all s items in (r, <[l := HSet s']> σ)
           | _ => (Raise AttributeError, σ)
           end
       | _ => (Raise AttributeError, σ)
       end.

(** [v[k1][k2]] and [v[k1][k2] = x] *)
Definition getitem2 (v : sval) (k1 k2 : string) : M store sval :=
  let* inner := getitem v k1 in
  getitem inner k2.

Definition setitem2 (v : sval) (k1 k2 : string) (x : sval) : M store unit :=
  let* inner := getitem v k1 in
  setitem inner k2 x.

(** The first statement of [combine]:
    [results = {'languages': {}, 'topics': {}, 'repos': {}}] *)
Definition new_results : M store sval :=
  let* languages_d := alloc (HDict ∅) in
  let* topics_d := alloc (HDict ∅) in
  let* repos_d := alloc (HDict ∅) in
  alloc (HDict (<["languages" := languages_d]>
                  (<["topics" := topics_d]> {["repos" := repos_d]}))).

(** The assignments of [combine] that fill [results]. *)
Definition fill (results bitbucket github : sval) : M store unit :=
  (* results['followers'] *)
  let* bf := getitem bitbucket "followers" in
  let* gf := getitem github "followers" in
  let* followers := add bf gf in
  setitem results "followers" followers ;;;
  (* languages *)
  let* languages := alloc (HSet ∅) in
  let* bl := getitem bitbucket "languages" in
  set_update languages bl ;;;
  let* gl := getitem github "languages" in
  set_update languages gl ;;;
  let* language_list := list_of languages in
  setitem2 results "languages" "list" language_list ;;;
  let* the_list := getitem2 results "languages" "list" in
  let* language_count := len the_list in
  setitem2 results "languages" "count" language_count ;;;
  (* topics *)
  let* gt := getitem github "topics" in
  let* topic_list := list_of gt in
  setitem2 results "topics" "list" topic_list ;;;
  let* gt := getitem github "topics" in
  let* topic_count := len gt in
  setitem2 results "topics" "count" topic_count ;;;
  (* repos *)
  let* b_forked := getitem2 bitbucket "repos" "forked" in
  let* g_forked := getitem2 github "repos" "forked" in
  let* forked := add b_forked g_forked in
  setitem2 results "repos" "forked" forked ;;;
  let* b_unforked := getitem2 bitbucket "repos" "unforked" in
  let* g_unforked := getitem2 github "repos" "unforked" in
  let* unforked := add b_unforked g_unforked in
  setitem2 results "repos" "unforked" unforked ;;;
  let* r_forked := getitem2 results "repos" "forked" in
  let* r_unforked := getitem2 results "repos" "unforked" in
  let* count := add r_forked r_unforked in
  setitem2 results "repos" "count" count ;;;
  (* results['watchers'] *)
  let* bw := getitem bitbucket "watchers" in
  let* gw := getitem github "watchers" in
  let* watchers := add bw gw in
  setitem results "watchers" watchers.

(** [combine(bitbucket, github)] *)
Definition combine (bitbucket github : sval) : M store sval :=
  let* results := new_results in
  fill results bitbucket github ;;;
  ret results.

End Heap.

(** * Vocabulary of the properties *)

(** How a walk over pages ends: at a page without a next link, or at a
    request that the server answers as invalid. *)
Inductive ending :=
| Complete
| Invalid (rq : request).

Definition last_request (e : ending) : list request :=
  match e with
  | Complete => []
  | Invalid rq => [rq]
  end.

Definition walk_outcome (e : ending) : res unit :=
  match e with
  | Complete => Ret tt
  | Invalid _ => Raise ValueError
  end.

Definition requests_of (pages : list (string * list value)) : list request :=
  (λ p, Request p.1 []) <$> pages.

Definition records_of (pages : list (string * list value)) : list value :=
  concat (snd <$> pages).

(** The accumulator of [get_all_results] after the records [recs]. *)
Definition accumulated (data : bool) (recs : list value) : value :=
  if data then VList recs else VInt (Z.of_nat (length recs)).

Definition page_request (link : string) (page : Z) : request :=
  Request (link +:+ "&page=" +:+ pretty page) [].

Definition numbered_requests (link : string) (k : Z) (pages : list (list value))
  : list request :=
  page_request link <$> seqZ k (Z.of_nat (length pages)).

Definition repos_requests (link : string) (pages : list (list value))
  : list request :=
  match pages with
  | [] => []
  | _ :: rest => Request link [] :: numbered_requests link 2 rest
  end.

Section Walks.
Context {W : Type} `{!Transport W}.

(** [serves w u pages e w']: from the transport state [w], the page at [u]
    and the pages that the [next] fields lead to are [pages], each with its
    URL and its records; the walk ends as [e] says and leaves the transport
    in [w']. *)
Inductive serves : W → string → list (string * list value) → ending → W → Prop :=
| serves_last w u d hs w' recs :
    fetch w (Request u []) = (Response true (VDict d) hs, w') →
    assoc "values" d = Some (VList recs) →
    default VNone (assoc "next" d) = VNone →
    serves w u [(u, recs)] Complete w'
| serves_invalid w u body hs w' :
    fetch w (Request u []) = (Response false body hs, w') →
    serves w u [] (Invalid (Request u [])) w'
| serves_next w u d hs w1 recs u' pages e w' :
    fetch w (Request u []) = (Response true (VDict d) hs, w1) →
    assoc "values" d = Some (VList recs) →
    assoc "next" d = Some (VStr u') →
    u' ≠ "" →
    serves w1 u' pages e w' →
    serves w u ((u, recs) :: pages) e w'.

(** [serves_numbered w link k n pages e w']: of the [n] pages from number
    [k] on, the transport serves [pages], a list of records each, until
    the walk ends as [e] says. *)
Inductive serves_numbered
  : W → string → Z → nat → list (list value) → ending → W → Prop :=
| numbered_done w link k :
    serves_numbered w link k 0 [] Complete w
| numbered_invalid w link k n body hs w' :
    fetch w (page_request link k) = (Response false body hs, w') →
    serves_numbered w link k (S n) [] (Invalid (page_request link k)) w'
| numbered_next w link k n recs hs w1 pages e w' :
    fetch w (page_request link k) = (Response true (VList recs) hs, w1) →
    serves_numbered w1 link (k + 1) n pages e w' →
    serves_numbered w link k (S n) (recs :: pages) e w'.

(** The whole walk of [get_all_repos]: the first page, then the numbered
    pages that its link header announces. *)
Inductive serves_repos
  : W → string → list (list value) → ending → W → Prop :=
| repos_invalid w link body hs w' :
    fetch w (Request link []) = (Response false body hs, w') →
    serves_repos w link [] (Invalid (Request link [])) w'
| repos_single w link recs hs w' :
    fetch w (Request link []) = (Response true (VList recs) hs, w') →
    Github.link_header hs = None →
    serves_repos w link [recs] Complete w'
| repos_paged w link recs hs w1 h total pages e w' :
    fetch w (Request link []) = (Response true (VList recs) hs, w1) →
    Github.link_header hs = Some h →
    Github.get_total_pages h = Ret total →
    serves_numbered w1 link 2 (Z.to_nat (total - 1)) pages e w' →
    serves_repos w link (recs :: pages) e w'.

End Walks.

(** ** Sample transports *)

Definition ok (body : value) : response := Response true body [].

Definition not_found : response := Response false VNone [].

Definition sample_record : value := VDict [("repo", VStr "data")].

(** Two pages, the first with a [next] link. *)
Definition two_pages : list response :=
  [ok (VDict [("values", VList [sample_record]); ("next", VStr "url2")]);
   ok (VDict [("values", VList [sample_record])])].

(** One page with a [next] link that turns out invalid. *)
Definition broken_chain : list response :=
  [ok (VDict [("values", VList [sample_record]); ("next", VStr "url2")]);
   not_found].

Definition dquote : string := String "034"%char EmptyString.

(** The link header of a first page of two: a [next] and a [last] entry. *)
Definition LINK_HEADER : string :=
  "<https://api.github.com/organizations/216758/repos?per_page=1&page=1>; rel="
  +:+ dquote +:+ "next" +:+ dquote +:+ ", "
  +:+ "<https://api.github.com/organizations/216758/repos?per_page=1&page=2>; rel="
  +:+ dquote +:+ "last" +:+ dquote.

(** A first page that announces two pages, and an invalid second one. *)
Definition broken_pages : list response :=
  [Response true (VList [sample_record]) [("link", LINK_HEADER)];
   not_found].

(** A repository record as Bitbucket lists it. *)
Definition sample_repo : value :=
  VDict [("language", VStr "python");
         ("links", VDict [("forks", VDict [("href", VStr "forks_url")])]);
         ("name", VStr "test_repo")].

Definition one_entry (key : string) : value :=
  VDict [("values", VList [VDict [(key, VStr "data")]])].

(** One page with one repository, then the answers to the three requests
    that follow: its fork listing, its watchers and the followers. *)
Definition one_repo (fork_listing : response) : list response :=
  [ok (VDict [("values", VList [sample_repo])]);
   fork_listing;
   ok (one_entry "watchers");
   ok (one_entry "followers")].

(** The repository counts in a finished result. *)
Definition repos_of (r : res value) : res value :=
  res_bind r (λ v, getitem v "repos").

(** What [make_response] returns when nothing was collected. *)
Definition bitbucket_default : value :=
  VDict [("followers", VInt 0);
         ("languages", VSet ∅);
         ("repos", VDict [("forked", VInt 0); ("unforked", VInt 0)]);
         ("watchers", VInt 0)].

Definition github_default : value :=
  VDict [("followers", VInt 0);
         ("languages", VSet ∅);
         ("repos", VDict [("forked", VInt 0); ("unforked", VInt 0)]);
         ("topics", VList []);
         ("watchers", VInt 0)].

(** A server that cannot be reached. *)
Definition unreachable : request → response := λ _, RequestException.

(** A repository record without its [language] field. *)
Definition repo_without_language : value :=
  VDict [("links", VDict [("forks", VDict [("href", VStr "forks_url")])]);
         ("name", VStr "test_repo")].

(** ** Runs that differ only in the state of the transport *)

Definition same_trace {W} (n1 n2 : net W) : Prop := trace n1 = trace n2.

Definition same_local {L S} (R : S → S → Prop) (s1 s2 : L * S) : Prop :=
  s1.1 = s2.1 ∧ R s1.2 s2.2.

(** [m] cannot tell two related states apart: it ends the same way in both,
    in related states. *)
Definition oblivious {S A} (R : S → S → Prop) (m : M S A) : Prop :=
  ∀ s1 s2, R s1 s2 → (m s1).1 = (m s2).1 ∧ R (m s1).2 (m s2).2.

(** A transport that answers by a table and counts the calls it got. *)
Definition counting_transport (table : request → response) : Transport nat :=
  λ n rq, (table rq, S n).

Definition one_follower (rq : request) : response :=
  if String.eqb (rq_url rq) "https://api.bitbucket.org/2.0/teams/test/followers?pagelen=100"
  then ok (one_entry "followers")
  else if String.eqb (rq_url rq) "https://api.github.com/users/test/followers?per_page=1"
  then ok (VList [VDict []])
  else not_found.

(** ** Link headers *)

Fixpoint has_char (c : ascii) (s : string) : bool :=
  match s with
  | EmptyString => false
  | String c' s' => Ascii.eqb c c' || has_char c s'
  end.

Fixpoint decimal_go (acc : Z) (s : string) : option Z :=
  match s with
  | EmptyString => Some acc
  | String c s' =>
      match digit_val c with
      | Some d => decimal_go (10 * acc + d) s'
      | None => None
      end
  end.

(** The number that a string of decimal digits writes. *)
Definition decimal (s : string) : option Z :=
  match s with
  | EmptyString => None
  | _ => decimal_go 0 s
  end.

Definition rel_last : string :=
  ">; rel=" +:+ dquote +:+ "last" +:+ dquote.

(** A link header of one line in which the last [>;] closes a URL that
    ends in [page=n], whatever [rel] that entry and the ones before it
    have.  The first page of a listing has such a header, with the
    [rel="last"] entry at the end. *)
Definition closing_page_header (h : string) (n : Z) : Prop :=
  ∃ pre ds suf,
    h = pre +:+ "page=" +:+ ds +:+ ">;" +:+ suf
    ∧ has_char newline pre = false
    ∧ has_char newline suf = false
    ∧ has_char ">" suf = false
    ∧ decimal ds = Some n
    ∧ (String.length ds ≤ int_max_str_digits)%nat.

(** The header has an entry [rel="last"] whose URL ends in [page=n]. *)
Definition rel_last_entry (h : string) (n : Z) : Prop :=
  ∃ pre ds suf,
    h = pre +:+ "page=" +:+ ds +:+ rel_last +:+ suf ∧ decimal ds = Some n.

(** The follower count as the specification words it, for an answer with
    the headers [hs] and the records [recs]: the count grows by the page
    number of the [rel="last"] entry of the link header, and by the number
    of records when there is no such entry. *)
Definition followers_as_specified
    (hs : list (string * string)) (recs : list value) (added : Z) : Prop :=
  (∀ h n, assoc "link" hs = Some h → rel_last_entry h n → added = n)
  ∧ ((∀ h n, assoc "link" hs = Some h → ¬ rel_last_entry h n) →
     added = Z.of_nat (length recs)).

(** Whether [p] occurs in [s]. *)
Fixpoint has_infix (p s : string) : bool :=
  match strip_prefix p s with
  | Some _ => true
  | None =>
      match s with
      | EmptyString => false
      | String _ s' => has_infix p s'
      end
  end.

(** A link header that names the last page, 7, before the next one, 2. *)
Definition LAST_FIRST_HEADER : string :=
  "<https://api.github.com/user/1/followers?per_page=1&page=7>; rel="
  +:+ dquote +:+ "last" +:+ dquote +:+ ", "
  +:+ "<https://api.github.com/user/1/followers?per_page=1&page=2>; rel="
  +:+ dquote +:+ "next" +:+ dquote.

(** A link header with a [next] entry only. *)
Definition NEXT_ONLY_HEADER : string :=
  "<https://api.github.com/user/1/followers?per_page=1&page=2>; rel="
  +:+ dquote +:+ "next" +:+ dquote.

Fixpoint all_digits (s : string) : bool :=
  match s with
  | EmptyString => true
  | String c s' => match digit_val c with Some _ => all_digits s' | None => false end
  end.

(** A group that [findall_page] found ends with the digits [ds], either
    as a whole or after a last [page=]. *)
Definition ends_in_page (g ds : string) : Prop :=
  g = ds ∨ ∃ a, g = a +:+ "page=" +:+ ds.

(** The one request that [get_followers_count] of Github makes. *)
Definition followers_request (self : Github.t) : request :=
  Request (Github.url self +:+ "/users/" +:+ Github.org self
             +:+ "/followers?per_page=1") [].

(** ** Stores before and after the merge *)

(** Every object of [σ0] is still in [σ], unchanged. *)
Definition frames (σ0 σ : Heap.store) : Prop :=
  ∀ l, l ∈ dom σ0 → σ !! l = σ0 !! l.

(** [l] is a dict, respectively a set, that did not exist in [σ0]. *)
Definition owned_dict (σ0 σ : Heap.store) (l : Heap.loc) : Prop :=
  (l ∉ dom σ0) ∧ ∃ d, σ !! l = Some (Heap.HDict d).

Definition owned_set (σ0 σ : Heap.store) (l : Heap.loc) : Prop :=
  (l ∉ dom σ0) ∧ ∃ s, σ !! l = Some (Heap.HSet s).

Definition nested_keys : list string := ["languages"; "topics"; "repos"].

(** The state of the store while [combine] runs: the objects of [σ0] are
    untouched, and the result [res] is a new dict whose three nested dicts
    are new as well. *)
Definition building (σ0 : Heap.store) (res : Heap.loc) (σ : Heap.store) : Prop :=
  frames σ0 σ
  ∧ (res ∉ dom σ0)
  ∧ ∃ m, σ !! res = Some (Heap.HDict m)
         ∧ ∀ k, k ∈ nested_keys →
                ∃ l, m !! k = Some (Heap.SRef l) ∧ l ≠ res ∧ owned_dict σ0 σ l.

(** The same once the local set [languages] exists. *)
Definition building_set (σ0 : Heap.store) (res ls : Heap.loc) (σ : Heap.store)
  : Prop :=
  building σ0 res σ ∧ owned_set σ0 σ ls.

(** [m] keeps the property [P] of the store, however it ends. *)
Definition keeps {A} (P : Heap.store → Prop) (m : M Heap.store A) : Prop :=
  ∀ σ, P σ → P (m σ).2.

(** [P] still holds after a new object is added. *)
Definition stable (P : Heap.store → Prop) : Prop :=
  ∀ σ o, P σ → P (<[fresh (dom σ) := o]> σ).

(** What a property of the store needs for the statements of [combine] to
    keep it: it implies [building], and it survives a new object and a
    write into a new dict that is not a nested key of the result. *)
Definition invariant (σ0 : Heap.store) (res : Heap.loc)
    (P : Heap.store → Prop) : Prop :=
  (∀ σ, P σ → building σ0 res σ)
  ∧ stable P
  ∧ ∀ σ l d k x,
      P σ → l ∉ dom σ0 → σ !! l = Some (Heap.HDict d) →
      (l = res → k ∉ nested_keys) →
      P (<[l := Heap.HDict (<[k := x]> d)]> σ).

(** ** Finished results in the store *)

(** The contents of a finished result of a collector. *)
Record aggregate := Aggregate {
  a_followers : Z;
  a_languages : gset hashable;
  a_forked : Z;
  a_unforked : Z;
  a_watchers : Z
}.

(** [v] is a well-formed finished result with the contents [a]: a dict
    with integer [followers] and [watchers], a set of [languages] and a
    [repos] dict of two integers. *)
Definition is_aggregate (σ : Heap.store) (v : Heap.sval) (a : aggregate) : Prop :=
  ∃ l d ll lr dr,
    v = Heap.SRef l
    ∧ σ !! l = Some (Heap.HDict d)
    ∧ d !! "followers" = Some (Heap.SInt (a_followers a))
    ∧ d !! "languages" = Some (Heap.SRef ll)
    ∧ σ !! ll = Some (Heap.HSet (a_languages a))
    ∧ d !! "repos" = Some (Heap.SRef lr)
    ∧ σ !! lr = Some (Heap.HDict dr)
    ∧ dr !! "forked" = Some (Heap.SInt (a_forked a))
    ∧ dr !! "unforked" = Some (Heap.SInt (a_unforked a))
    ∧ d !! "watchers" = Some (Heap.SInt (a_watchers a)).

(** The object at [l] holds the items [items]: it is that list, or a set
    that iterates as that list. *)
Definition holds_items (σ : Heap.store) (l : Heap.loc) (items : list Heap.sval)
  : Prop :=
  σ !! l = Some (Heap.HList items)
  ∨ ∃ s, σ !! l = Some (Heap.HSet s) ∧ items = Heap.unhash <$> elements s.

(** The result [v] of the Github collector has the topics [topics]. *)
Definition has_topics (σ : Heap.store) (v : Heap.sval) (topics : list Heap.sval)
  : Prop :=
  ∃ l d lt,
    v = Heap.SRef l
    ∧ σ !! l = Some (Heap.HDict d)
    ∧ d !! "topics" = Some (Heap.SRef lt)
    ∧ holds_items σ lt topics.

(** The contents of a merged result. *)
Record merged := Merged {
  m_followers : Z;
  m_languages : list Heap.sval;
  m_language_count : Z;
  m_topics : list Heap.sval;
  m_topic_count : Z;
  m_forked : Z;
  m_unforked : Z;
  m_count : Z;
  m_watchers : Z
}.

(** [v] is a merged result with the contents [m]. *)
Definition is_merged (σ : Heap.store) (v : Heap.sval) (m : merged) : Prop :=
  ∃ l d l1 d1 ll l2 d2 lt l3 d3,
    v = Heap.SRef l
    ∧ σ !! l = Some (Heap.HDict d)
    ∧ d !! "followers" = Some (Heap.SInt (m_followers m))
    ∧ d !! "watchers" = Some (Heap.SInt (m_watchers m))
    ∧ d !! "languages" = Some (Heap.SRef l1)
    ∧ σ !! l1 = Some (Heap.HDict d1)
    ∧ d1 !! "list" = Some (Heap.SRef ll)
    ∧ σ !! ll = Some (Heap.HList (m_languages m))
    ∧ d1 !! "count" = Some (Heap.SInt (m_language_count m))
    ∧ d !! "topics" = Some (Heap.SRef l2)
    ∧ σ !! l2 = Some (Heap.HDict d2)
    ∧ d2 !! "list" = Some (Heap.SRef lt)
    ∧ σ !! lt = Some (Heap.HList (m_topics m))
    ∧ d2 !! "count" = Some (Heap.SInt (m_topic_count m))
    ∧ d !! "repos" = Some (Heap.SRef l3)
    ∧ σ !! l3 = Some (Heap.HDict d3)
    ∧ d3 !! "forked" = Some (Heap.SInt (m_forked m))
    ∧ d3 !! "unforked" = Some (Heap.SInt (m_unforked m))
    ∧ d3 !! "count" = Some (Heap.SInt (m_count m)).

(** The merge as the specification words it: sums of the counters, the
    union of the languages listed once each, the topics of the second
    argument. *)
Definition expected (a b : aggregate) (topics : list Heap.sval) : merged :=
  let languages := Heap.unhash <$> elements (a_languages a ∪ a_languages b) in
  {| m_followers := a_followers a + a_followers b;
     m_languages := languages;
     m_language_count := Z.of_nat (length languages);
     m_topics := topics;
     m_topic_count := Z.of_nat (length topics);
     m_forked := a_forked a + a_forked b;
     m_unforked := a_unforked a + a_unforked b;
     m_count := (a_forked a + a_forked b) + (a_unforked a + a_unforked b);
     m_watchers := a_watchers a + a_watchers b |}.

(** A run that ends normally in a store with the property [P]. *)
Definition ends {A} (P : A → Heap.store → Prop) (p : res A * Heap.store) : Prop :=
  ∃ a σ, p = (Ret a, σ) ∧ P a σ.

(** The result of a collector has a [repos] dict of exactly the two fields
    [forked] and [unforked]. *)
Definition two_fields (o : res value) : Prop :=
  match o with
  | Ret r =>
      ∃ f u, getitem r "repos"
             = Ret (VDict [("forked", VInt f); ("unforked", VInt u)])
  | _ => True
  end.

(** The invariant of the specification, read on a result [r]:
    [r.repos.count == r.repos.forked + r.repos.unforked]. *)
Definition count_invariant (r : value) : Prop :=
  ∃ repos c f u,
    getitem r "repos" = Ret repos
    ∧ getitem repos "count" = Ret (VInt c)
    ∧ getitem repos "forked" = Ret (VInt f)
    ∧ getitem repos "unforked" = Ret (VInt u)
    ∧ c = f + u.

(** A store with the two results of the merge scenario: the Bitbucket
    result at 1 and the Github result at 4. *)
Definition sample_store : Heap.store :=
  <[1%positive := Heap.HDict (<["followers" := Heap.SInt 1]>
                    (<["languages" := Heap.SRef 2%positive]>
                       (<["repos" := Heap.SRef 3%positive]>
                          {["watchers" := Heap.SInt 1]})))]>
  (<[2%positive := Heap.HSet {[HStr "python"]}]>
  (<[3%positive := Heap.HDict (<["forked" := Heap.SInt 1]>
                                 {["unforked" := Heap.SInt 1]})]>
  (<[4%positive := Heap.HDict (<["followers" := Heap.SInt 1]>
                    (<["languages" := Heap.SRef 5%positive]>
                       (<["repos" := Heap.SRef 6%positive]>
                          (<["topics" := Heap.SRef 7%positive]>
                             {["watchers" := Heap.SInt 1]}))))]>
  (<[5%positive := Heap.HSet {[HStr "javascript"]}]>
  (<[6%positive := Heap.HDict (<["forked" := Heap.SInt 1]>
                                 {["unforked" := Heap.SInt 1]})]>
  {[7%positive := Heap.HSet {[HStr "flask"]}]}))))).

(** * More vocabulary *)

(** Two pages, announced by the link header of the first. *)
Definition two_numbered_pages : list response :=
  [Response true (VList [sample_record]) [("link", LINK_HEADER)];
   Response true (VList [sample_record; sample_record]) []].

(** A first page whose link header holds no link at all. *)
Definition headless_page : list response :=
  [Response true (VList [sample_record]) [("link", "rel=next")]].

(** A first page whose link header has no page number where one is read. *)
Definition unnumbered_page : list response :=
  [Response true (VList [sample_record]) [("link", "<url?page=last>; rel=x")]].

(** A finished result without topics: the shape the Bitbucket collector
    returns. *)
Definition lacks_topics (σ : Heap.store) (v : Heap.sval) : Prop :=
  ∃ l d, v = Heap.SRef l ∧ σ !! l = Some (Heap.HDict d) ∧ d !! "topics" = None.

(** The sample store with a second result that has topics, at 8. *)
Definition two_github_store : Heap.store :=
  <[8%positive := Heap.HDict (<["followers" := Heap.SInt 3]>
                    (<["languages" := Heap.SRef 2%positive]>
                       (<["repos" := Heap.SRef 3%positive]>
                          (<["topics" := Heap.SRef 9%positive]>
                             {["watchers" := Heap.SInt 0]}))))]>
  (<[9%positive := Heap.HList [Heap.SStr "api"]]> sample_store).

(** A walk over pages that ends at a request which finds no server. *)
Section Down.
Context {W : Type} `{!Transport W}.

Inductive serves_until_down
  : W → string → list (string * list value) → request → W → Prop :=
| down_here w u w' :
    fetch w (Request u []) = (RequestException, w') →
    serves_until_down w u [] (Request u []) w'
| down_next w u d hs w1 recs u' pages rq w' :
    fetch w (Request u []) = (Response true (VDict d) hs, w1) →
    assoc "values" d = Some (VList recs) →
    assoc "next" d = Some (VStr u') →
    u' ≠ "" →
    serves_until_down w1 u' pages rq w' →
    serves_until_down w u ((u, recs) :: pages) rq w'.

End Down.

(** One page with a [next] link, and no server behind that link. *)
Definition lost_chain : list response :=
  [ok (VDict [("values", VList [sample_record]); ("next", VStr "url2")]);
   RequestException].

(** ** Invariants of a collector *)

(** [m] keeps the invariant [I] of the attributes of [self], however it
    ends; a value it returns satisfies [R] and an exception it raises
    satisfies [E]. *)
Definition safe {L S A} (I : L → Prop) (E : exn → Prop) (m : M (L * S) A)
    (R : A → Prop) : Prop :=
  ∀ s, I s.1 →
       match m s with
       | (Ret a, s') => I s'.1 ∧ R a
       | (Raise e, s') => I s'.1 ∧ E e
       | (Diverge, s') => I s'.1
       end.

(** What a call over the network alone may return and raise. *)
Definition yields {S A} (E : exn → Prop) (m : M S A) (R : A → Prop) : Prop :=
  ∀ s, match (m s).1 with
       | Ret a => R a
       | Raise e => E e
       | Diverge => True
       end.

(** What a pure operation may return and raise. *)
Definition gives {A} (E : exn → Prop) (r : res A) (R : A → Prop) : Prop :=
  match r with
  | Ret a => R a
  | Raise e => E e
  | Diverge => True
  end.

Definition not_value_error (e : exn) : Prop := e ≠ ValueError.

Definition not_transport_error (e : exn) : Prop :=
  e ≠ ValueError ∧ e ≠ ConnectionResetError.

(** The counters of a Bitbucket collector are not negative and its
    [results] dict is still empty. *)
Definition bitbucket_invariant (self : Bitbucket.t) : Prop :=
  (0 ≤ Bitbucket.followers self)%Z
  ∧ (0 ≤ Bitbucket.watchers self)%Z
  ∧ (0 ≤ Bitbucket.forked (Bitbucket.repos self))%Z
  ∧ (0 ≤ Bitbucket.unforked (Bitbucket.repos self))%Z
  ∧ Bitbucket.results self = [].

(** A set element that is a string in lower case. *)
Definition lowercase (h : hashable) : Prop := ∃ s, h = HStr s ∧ lower s = s.

(** The repository counts of a Github collector are not negative, its
    languages are strings in lower case and its [results] dict is still
    empty. *)
Definition github_invariant (self : Github.t) : Prop :=
  (0 ≤ Github.forked (Github.repos self))%Z
  ∧ (0 ≤ Github.unforked (Github.repos self))%Z
  ∧ Github.results self = []
  ∧ ∀ h, h ∈ Github.languages self → lowercase h.

(** Whether a string has a blank character. *)
Fixpoint has_space (s : string) : bool :=
  match s with
  | EmptyString => false
  | String c s' => py_isspace c || has_space s'
  end.

(** ** Counting repositories *)

(** Whether a Github repository record is a fork: its ['fork'] field is
    there and true. *)
Definition is_fork (repo : value) : bool :=
  match getitem repo "fork" with
  | Ret v => truthy v
  | _ => false
  end.

(** How many of [items] satisfy [p]. *)
Fixpoint count_where (p : value → bool) (items : list value) : Z :=
  match items with
  | [] => 0
  | x :: xs => (if p x then 1 else 0) + count_where p xs
  end.

(** What the ['watchers'] field of a Github repository record adds to the
    counter: an integer, a boolean as 0 or 1. *)
Definition watchers_of (repo : value) : Z :=
  match getitem repo "watchers" with
  | Ret (VInt n) => n
  | Ret (VBool b) => int_of_bool b
  | _ => 0
  end.

Fixpoint sum_of (f : value → Z) (items : list value) : Z :=
  match items with
  | [] => 0
  | x :: xs => f x + sum_of f xs
  end.

(** * Properties *)

(** ** Cursor pagination (Bitbucket) *)

Section BitbucketPages.
Context {W : Type} `{!Transport W}.

Lemma truthy_url u : u ≠ "" → truthy (VStr u) = true.
Proof.
  intros Hu. simpl. destruct (String.eqb_spec u ""); [contradiction|reflexivity].
Qed.

Lemma accumulated_step data acc d recs :
  assoc "values" d = Some (VList recs) →
  ∃ r, Bitbucket.get_result (VDict d) data = Ret r
       ∧ py_iadd (accumulated data acc) r = Ret (accumulated data (acc ++ recs)).
Proof.
  intros Hv. unfold Bitbucket.get_result. simpl. rewrite Hv.
  destruct data; simpl; eexists; split; try reflexivity.
  rewrite length_app, Nat2Z.inj_add. reflexivity.
Qed.

(** One turn of the loop on a page that is served. *)
Lemma paginate_page fuel u data acc w tr d hs w1 recs next :
  fetch w (Request u []) = (Response true (VDict d) hs, w1) →
  assoc "values" d = Some (VList recs) →
  default VNone (assoc "next" d) = next →
  Bitbucket.paginate (S fuel) (VStr u) data (accumulated data acc, Net w tr)
  = (if truthy next then Bitbucket.paginate fuel next data else ret tt)
      (accumulated data (acc ++ recs), Net w1 (tr ++ [Request u []])).
Proof.
  intros Hf Hv <-.
  destruct (accumulated_step data acc d recs Hv) as (r & Hr & Hadd).
  simpl. unfold bind, lift, Bitbucket.make_api_call, requests_get, bind; simpl.
  rewrite Hf; simpl. unfold lift_res. rewrite Hr; simpl. rewrite Hadd; simpl.
  reflexivity.
Qed.

(** One turn of the loop on a request that is invalid. *)
Lemma paginate_invalid fuel u data acc w tr body hs w1 :
  fetch w (Request u []) = (Response false body hs, w1) →
  Bitbucket.paginate (S fuel) (VStr u) data (acc, Net w tr)
  = (Raise ValueError, (acc, Net w1 (tr ++ [Request u []]))).
Proof.
  intros Hf.
  simpl. unfold bind, lift, Bitbucket.make_api_call, requests_get, bind; simpl.
  rewrite Hf; reflexivity.
Qed.

Lemma paginate_serves pages w u e w' data :
  serves w u pages e w' →
  ∀ fuel acc tr, (length pages < fuel)%nat →
    Bitbucket.paginate fuel (VStr u) data (accumulated data acc, Net w tr)
    = (match e with Complete => Ret tt | Invalid _ => Raise ValueError end,
       (accumulated data (acc ++ records_of pages),
        Net w' (tr ++ requests_of pages ++ last_request e))).
Proof.
  induction 1 as [w u d hs w' recs Hf Hv Hn|w u body hs w' Hf
                 |w u d hs w1 recs u' pages e w' Hf Hv Hn Hu Hs IH];
    intros fuel acc tr Hfuel;
    (destruct fuel as [|fuel]; [simpl in Hfuel; lia|]).
  - rewrite (paginate_page _ _ _ _ _ _ _ _ _ _ _ Hf Hv Hn). simpl.
    unfold records_of; simpl. rewrite app_nil_r. reflexivity.
  - rewrite (paginate_invalid _ _ _ _ _ _ _ _ _ Hf).
    unfold records_of; simpl. rewrite app_nil_r. reflexivity.
  - rewrite (paginate_page _ _ _ _ _ _ _ _ _ _ (VStr u') Hf Hv)
      by (rewrite Hn; reflexivity).
    rewrite (truthy_url _ Hu), IH by (simpl in Hfuel; lia).
    unfold records_of, requests_of; simpl.
    rewrite <- !app_assoc. reflexivity.
Qed.

Lemma get_all_results_serves pages w u e w' data fuel tr :
  serves w u pages e w' →
  (length pages < fuel)%nat →
  Bitbucket.get_all_results fuel (VStr u) data (Net w tr)
  = (Ret (accumulated data (records_of pages)),
     Net w' (tr ++ requests_of pages ++ last_request e)).
Proof.
  intros Hs Hfuel. unfold Bitbucket.get_all_results, with_local, bind, try_except.
  change (if data then VList [] else VInt 0) with (accumulated data []).
  rewrite (paginate_serves _ _ _ _ _ data Hs fuel [] tr Hfuel).
  destruct e; reflexivity.
Qed.

End BitbucketPages.

(** ** Header pagination (Github) *)

Section GithubPages.
Context {W : Type} `{!Transport W}.

Lemma fetch_page_ok link k acc w tr recs hs w1 :
  fetch w (page_request link k) = (Response true (VList recs) hs, w1) →
  Github.fetch_page link k (VList acc, Net w tr)
  = (Ret tt, (VList (acc ++ recs), Net w1 (tr ++ [page_request link k]))).
Proof.
  intros Hf. unfold Github.fetch_page, bind, lift, Github.make_api_call,
    requests_get, bind; simpl.
  fold (page_request link k). rewrite Hf. reflexivity.
Qed.

Lemma fetch_page_invalid link k acc w tr body hs w1 :
  fetch w (page_request link k) = (Response false body hs, w1) →
  Github.fetch_page link k (acc, Net w tr)
  = (Raise ValueError, (acc, Net w1 (tr ++ [page_request link k]))).
Proof.
  intros Hf. unfold Github.fetch_page, bind, lift, Github.make_api_call,
    requests_get, bind; simpl.
  fold (page_request link k). rewrite Hf. reflexivity.
Qed.

Lemma seqZ_S k n : seqZ k (Z.of_nat (S n)) = k :: seqZ (k + 1) (Z.of_nat n).
Proof.
  rewrite seqZ_cons by lia. f_equal. f_equal; lia.
Qed.

Lemma seqZ_to_nat m len : seqZ m len = seqZ m (Z.of_nat (Z.to_nat len)).
Proof. unfold seqZ. rewrite Nat2Z.id. reflexivity. Qed.

Lemma for_each_numbered w link k n pages e w' :
  serves_numbered w link k n pages e w' →
  ∀ acc tr,
    for_each (seqZ k (Z.of_nat n)) (Github.fetch_page link)
      (VList acc, Net w tr)
    = (walk_outcome e,
       (VList (acc ++ concat pages),
        Net w' (tr ++ numbered_requests link k pages ++ last_request e))).
Proof.
  induction 1 as [w link k|w link k n body hs w' Hf
                 |w link k n recs hs w1 pages e w' Hf Hs IH]; intros acc tr.
  - simpl. rewrite !app_nil_r. reflexivity.
  - rewrite seqZ_S. simpl. unfold bind.
    rewrite (fetch_page_invalid _ _ _ _ _ _ _ _ Hf).
    rewrite app_nil_r. reflexivity.
  - rewrite seqZ_S. simpl for_each. unfold bind.
    rewrite (fetch_page_ok _ _ _ _ _ _ _ _ Hf), IH.
    unfold numbered_requests. simpl length. rewrite seqZ_S. simpl.
    rewrite <- !app_assoc. reflexivity.
Qed.

Lemma get_all_repos_serves w link pages e w' tr :
  serves_repos w link pages e w' →
  Github.get_all_repos link (Net w tr)
  = (Ret (VList (concat pages)),
     Net w' (tr ++ repos_requests link pages ++ last_request e)).
Proof.
  destruct 1 as [w link body hs w' Hf|w link recs hs w' Hf Hh
                |w link recs hs w1 h total pages e w' Hf Hh Ht Hs];
    unfold Github.get_all_repos, with_local, bind, try_except, lift,
      Github.make_api_call, requests_get, bind; simpl; rewrite Hf; simpl.
  - reflexivity.
  - rewrite Hh. simpl. rewrite !app_nil_r. reflexivity.
  - rewrite Hh. unfold lift_res. rewrite Ht.
    rewrite (seqZ_to_nat 2 (total - 1)).
    rewrite (for_each_numbered _ _ _ _ _ _ _ Hs). simpl.
    destruct e; simpl; rewrite <- ?app_assoc; reflexivity.
Qed.

End GithubPages.

(** ** Pagination: the claims *)

Section Pagination.
Context {W : Type} `{!Transport W}.

Lemma length_records_of pages :
  length (records_of pages) = sum_list_with (λ p, length p.2) pages.
Proof.
  unfold records_of. induction pages as [|p pages IH]; [reflexivity|].
  rewrite fmap_cons. cbn [concat sum_list_with].
  rewrite length_app, IH. reflexivity.
Qed.

(** C7.  When each page gives the URL of the next one in its [next] field
    and the last page has none (or null), [get_all_results] in record mode
    returns the records of the pages, page after page, and in count mode the
    sum of the numbers of records of the pages; the requests it makes are
    the start URL and then exactly the URLs the [next] fields gave, in
    order. *)
Theorem get_all_results_follows_next w u pages w' fuel tr :
  serves w u pages Complete w' →
  (length pages < fuel)%nat →
  Bitbucket.get_all_results fuel (VStr u) true (Net w tr)
  = (Ret (VList (concat (snd <$> pages))), Net w' (tr ++ requests_of pages))
  ∧ Bitbucket.get_all_results fuel (VStr u) false (Net w tr)
    = (Ret (VInt (Z.of_nat (sum_list_with (λ p, length p.2) pages))),
       Net w' (tr ++ requests_of pages)).
Proof.
  intros Hs Hfuel. split.
  - rewrite (get_all_results_serves _ _ _ _ _ true _ tr Hs Hfuel).
    unfold accumulated, last_request, records_of.
    rewrite app_nil_r. reflexivity.
  - rewrite (get_all_results_serves _ _ _ _ _ false _ tr Hs Hfuel).
    unfold accumulated, last_request.
    rewrite app_nil_r, length_records_of. reflexivity.
Qed.

(** C6.  When a page request is answered as invalid, both paginators stop
    at that request and return, without raising, what the pages before it
    gave: the cursor paginator in either mode, and the header paginator. *)
Theorem pagination_halts_on_invalid
    w u pages rq w' data fuel tr v link gpages grq v' gtr :
  serves w u pages (Invalid rq) w' →
  (length pages < fuel)%nat →
  serves_repos v link gpages (Invalid grq) v' →
  Bitbucket.get_all_results fuel (VStr u) data (Net w tr)
  = (Ret (accumulated data (records_of pages)),
     Net w' (tr ++ requests_of pages ++ [rq]))
  ∧ Github.get_all_repos link (Net v gtr)
    = (Ret (VList (concat gpages)),
       Net v' (gtr ++ repos_requests link gpages ++ [grq])).
Proof.
  intros Hs Hfuel Hg. split.
  - apply (get_all_results_serves _ _ _ _ _ data _ tr Hs Hfuel).
  - apply (get_all_repos_serves _ _ _ _ _ gtr Hg).
Qed.

End Pagination.

Lemma get_all_results_follows_next_witness :
  Bitbucket.get_all_results 3 (VStr "url") true (Net two_pages [])
  = (Ret (VList [sample_record; sample_record]),
     Net [] [Request "url" []; Request "url2" []])
  ∧ Bitbucket.get_all_results 3 (VStr "url") false (Net two_pages [])
    = (Ret (VInt 2), Net [] [Request "url" []; Request "url2" []]).
Proof.
  apply (get_all_results_follows_next two_pages "url"
           [("url", [sample_record]); ("url2", [sample_record])] [] 3 []).
  - eapply serves_next; [reflexivity|reflexivity|reflexivity|discriminate|].
    eapply serves_last; reflexivity.
  - simpl; lia.
Defined.

Lemma pagination_halts_on_invalid_witness :
  Bitbucket.get_all_results 3 (VStr "url") true (Net broken_chain [])
  = (Ret (VList [sample_record]),
     Net [] [Request "url" []; Request "url2" []])
  ∧ Github.get_all_repos "url" (Net broken_pages [])
    = (Ret (VList [sample_record]),
       Net [] [Request "url" []; Request "url&page=2" []]).
Proof.
  apply (pagination_halts_on_invalid broken_chain "url"
           [("url", [sample_record])] (Request "url2" []) [] true 3 []
           broken_pages "url" [[sample_record]] (Request "url&page=2" []) []
           []).
  - eapply serves_next; [reflexivity|reflexivity|reflexivity|discriminate|].
    eapply serves_invalid; reflexivity.
  - simpl; lia.
  - eapply repos_paged with (total := 2);
      [reflexivity|reflexivity|vm_compute; reflexivity|].
    exact (numbered_invalid [not_found] "url" 2 0 VNone [] [] eq_refl).
Defined.

(** ** The Bitbucket collector *)

Section BitbucketCollector.
Context {W : Type} `{!Transport W}.

(** C3.  [update_repo_count] asks for the fork listing once.  When the
    listing is served, the repository counts as forked if the listing has at
    least one entry and as unforked if it has none; when the request is
    invalid, it counts as unforked.  One repository with an empty fork
    listing gives [{forked: 0, unforked: 1}], one with a fork listing that
    is not empty gives [{forked: 1, unforked: 0}]. *)
Theorem fork_classification (self : Bitbucket.t) w tr link r w' :
  fetch w (Request link []) = (r, w') →
  (∀ d hs entries,
      r = Response true (VDict d) hs →
      assoc "values" d = Some (VList entries) →
      ∃ self',
        Bitbucket.update_repo_count (VStr link) (self, Net w tr)
        = (Ret tt, (self', Net w' (tr ++ [Request link []])))
        ∧ (self' = Bitbucket.incr_forked self ↔ entries ≠ [])
        ∧ (self' = Bitbucket.incr_unforked self ↔ entries = []))
  ∧ (∀ body hs,
      r = Response false body hs →
      Bitbucket.update_repo_count (VStr link) (self, Net w tr)
      = (Ret tt, (Bitbucket.incr_unforked self,
                  Net w' (tr ++ [Request link []]))))
  ∧ repos_of (Bitbucket.run 2 "test" (one_repo (ok (VDict [("values", VList [])])))).1
    = Ret (VDict [("forked", VInt 0); ("unforked", VInt 1)])
  ∧ repos_of (Bitbucket.run 2 "test" (one_repo (ok (one_entry "fork")))).1
    = Ret (VDict [("forked", VInt 1); ("unforked", VInt 0)]).
Proof.
  intros Hf. split; [|split; [|split; vm_compute; reflexivity]].
  - intros d hs entries -> Hv.
    unfold Bitbucket.update_repo_count, try_except, bind, lift,
      Bitbucket.make_api_call, requests_get, bind; simpl.
    rewrite Hf; simpl. unfold lift_res; simpl. rewrite Hv; simpl.
    assert (Hne : Bitbucket.incr_forked self ≠ Bitbucket.incr_unforked self).
    { unfold Bitbucket.incr_forked, Bitbucket.incr_unforked,
        Bitbucket.set_repos. intros [= H1 H2]. lia. }
    destruct entries as [|e entries]; simpl; eexists; (split; [reflexivity|]);
      repeat split; intros;
      first [reflexivity | congruence | exfalso; apply Hne; congruence].
  - intros body hs ->.
    unfold Bitbucket.update_repo_count, try_except, bind, lift,
      Bitbucket.make_api_call, requests_get, bind; simpl.
    rewrite Hf; reflexivity.
Qed.

End BitbucketCollector.

Lemma fork_classification_witness :
  Bitbucket.update_repo_count (VStr "url")
    (Bitbucket.init "test", Net [ok (one_entry "fork")] [])
  = (Ret tt, (Bitbucket.incr_forked (Bitbucket.init "test"),
              Net [] [Request "url" []])).
Proof.
  destruct (fork_classification (Bitbucket.init "test")
              [ok (one_entry "fork")] [] "url" (ok (one_entry "fork")) []
              eq_refl) as (H & _).
  destruct (H _ [] [VDict [("fork", VStr "data")]] eq_refl eq_refl)
    as (self' & Hrun & Hforked & _).
  rewrite Hrun. do 2 f_equal. f_equal. apply Hforked. discriminate.
Defined.

(** ** Failures *)

Section Unreachable.
Context {W : Type} `{!Transport W}.
Context (repr : value → string).

(** C5.  When every request fails to connect, [make_response] of either
    collector returns, without raising, the result with every field at its
    default. *)
Theorem connectivity_failure_defaults fuel org (w : W) :
  (∀ rq, (fetch w rq).1 = RequestException) →
  (0 < fuel)%nat →
  (Bitbucket.run fuel org w).1 = Ret bitbucket_default
  ∧ (Github.run repr org w).1 = Ret github_default.
Proof.
  intros Hfail Hfuel. destruct fuel as [|fuel]; [lia|]. split.
  - unfold Bitbucket.run, Bitbucket.make_response, Bitbucket.process_repos,
      Bitbucket.get_all_results, try_except, with_local, bind, lift. simpl.
    unfold bind, lift, requests_get; simpl.
    match goal with |- context [fetch w ?rq] =>
      specialize (Hfail rq); destruct (fetch w rq) as [r w1] end.
    simpl in Hfail; subst r. reflexivity.
  - unfold Github.run, Github.make_response, Github.process_repos,
      Github.get_all_repos, try_except, with_local, bind, lift. simpl.
    unfold Github.make_api_call, bind, requests_get; simpl.
    match goal with |- context [fetch w ?rq] =>
      specialize (Hfail rq); destruct (fetch w rq) as [r w1] end.
    simpl in Hfail; subst r. simpl.
    unfold Github.finalize; simpl. rewrite elements_empty. reflexivity.
Qed.

End Unreachable.

Lemma connectivity_failure_defaults_witness :
  (Bitbucket.run 1 "test" unreachable).1 = Ret bitbucket_default
  ∧ (Github.run (λ _, "") "test" unreachable).1 = Ret github_default.
Proof.
  apply (connectivity_failure_defaults (λ _, "") 1 "test" unreachable).
  - intros rq. reflexivity.
  - lia.
Defined.

(** C1.  A response that lacks an expected field is not always replaced by
    a default.  [get_result] does replace a missing [values] by the empty
    list or zero, yet a fork listing without [values] and a repository
    record without [language] make [make_response] raise [KeyError]. *)
Theorem missing_field_raises :
  Bitbucket.get_result (VDict []) true = Ret (VList [])
  ∧ Bitbucket.get_result (VDict []) false = Ret (VInt 0)
  ∧ (Bitbucket.update_repo_count (VStr "forks_url")
       (Bitbucket.init "test", Net [ok (VDict [])] [])).1 = Raise KeyError
  ∧ (Bitbucket.run 2 "test" (one_repo (ok (VDict [])))).1 = Raise KeyError
  ∧ (Bitbucket.run 2 "test"
       [ok (VDict [("values", VList [repo_without_language])])]).1
    = Raise KeyError.
Proof. repeat split; vm_compute; reflexivity. Qed.

(** ** Independence of the state of the transport *)

Section Oblivious.
Context {S : Type} (R : S → S → Prop).

Lemma obl_ret {A} (a : A) : oblivious R (ret a).
Proof. intros s1 s2 H. split; [reflexivity|exact H]. Qed.

Lemma obl_raise {A} e : oblivious R (@raise S A e).
Proof. intros s1 s2 H. split; [reflexivity|exact H]. Qed.

Lemma obl_diverge {A} : oblivious R (@diverge S A).
Proof. intros s1 s2 H. split; [reflexivity|exact H]. Qed.

Lemma obl_lift_res {A} (r : res A) : oblivious R (lift_res r).
Proof. intros s1 s2 H. split; [reflexivity|exact H]. Qed.

Lemma obl_bind {A B} (m : M S A) (k : A → M S B) :
  oblivious R m → (∀ a, oblivious R (k a)) → oblivious R (bind m k).
Proof.
  intros Hm Hk s1 s2 H. unfold bind.
  destruct (Hm s1 s2 H) as [Hr Hs].
  destruct (m s1) as [r1 t1], (m s2) as [r2 t2]; simpl in *; subst r2.
  destruct r1; [apply Hk; exact Hs|split; [reflexivity|exact Hs]..].
Qed.

Lemma obl_try {A} (m h : M S A) e :
  oblivious R m → oblivious R h → oblivious R (try_except m e h).
Proof.
  intros Hm Hh s1 s2 H. unfold try_except.
  destruct (Hm s1 s2 H) as [Hr Hs].
  destruct (m s1) as [r1 t1], (m s2) as [r2 t2]; simpl in *; subst r2.
  destruct r1; [split; [reflexivity|exact Hs]| |split; [reflexivity|exact Hs]].
  destruct (decide (e0 = e)); [apply Hh; exact Hs|split; [reflexivity|exact Hs]].
Qed.

Lemma obl_for_each {A} (xs : list A) (body : A → M S unit) :
  (∀ x, oblivious R (body x)) → oblivious R (for_each xs body).
Proof.
  intros Hb. induction xs as [|x xs IH]; simpl.
  - apply obl_ret.
  - apply obl_bind; [apply Hb|intros _; exact IH].
Qed.

Lemma obl_lift {L A} (m : M S A) :
  oblivious R m → oblivious (same_local (L := L) R) (lift m).
Proof.
  intros Hm [l1 s1] [l2 s2] [Hl H]; simpl in *; subst l2. unfold lift; simpl.
  destruct (Hm s1 s2 H) as [Hr Hs].
  destruct (m s1) as [r1 t1], (m s2) as [r2 t2]; simpl in *.
  split; [exact Hr|split; [reflexivity|exact Hs]].
Qed.

Lemma obl_get_local {L} : oblivious (same_local (L := L) R) get_local.
Proof.
  intros [l1 s1] [l2 s2] [Hl H]; simpl in *; subst l2.
  split; [reflexivity|split; [reflexivity|exact H]].
Qed.

Lemma obl_set_local {L} (l : L) : oblivious (same_local R) (set_local l).
Proof.
  intros [l1 s1] [l2 s2] [Hl H]; simpl in *.
  split; [reflexivity|split; [reflexivity|exact H]].
Qed.

Lemma obl_with_local {L A} (l0 : L) (m : M (L * S) A) :
  oblivious (same_local R) m → oblivious R (with_local l0 m).
Proof.
  intros Hm s1 s2 H. unfold with_local.
  destruct (Hm (l0, s1) (l0, s2)) as [Hr Hs]; [split; [reflexivity|exact H]|].
  destruct (m (l0, s1)) as [r1 t1], (m (l0, s2)) as [r2 t2]; simpl in *.
  split; [exact Hr|apply Hs].
Qed.

End Oblivious.

Ltac obl_step :=
  first
    [ apply obl_ret | apply obl_raise | apply obl_diverge | apply obl_lift_res
    | apply obl_get_local | apply obl_set_local
    | solve [auto 2]
    | apply obl_bind; [|intros ?]
    | apply obl_try
    | apply obl_lift
    | apply obl_with_local
    | apply obl_for_each; intros ?
    | case_match ].

Ltac obl := repeat obl_step.

Section Deterministic.
Context {W : Type} `{!Transport W}.
Context (repr : value → string).
Context (table : request → response).
Hypothesis answers : ∀ w rq, (fetch w rq).1 = table rq.

Lemma obl_requests_get rq : oblivious same_trace (requests_get rq).
Proof.
  intros [w1 t1] [w2 t2] H. unfold same_trace in H; simpl in H; subst t2.
  unfold requests_get; simpl.
  pose proof (answers w1 rq) as H1. pose proof (answers w2 rq) as H2.
  destruct (fetch w1 rq) as [r1 w1'], (fetch w2 rq) as [r2 w2'].
  simpl in *. subst. split; reflexivity.
Qed.

Lemma obl_bitbucket_call url :
  oblivious same_trace (Bitbucket.make_api_call url).
Proof.
  unfold Bitbucket.make_api_call. pose proof obl_requests_get. obl; auto.
Qed.

Lemma obl_paginate fuel : ∀ link data,
  oblivious (same_local same_trace) (Bitbucket.paginate fuel link data).
Proof.
  pose proof obl_bitbucket_call.
  induction fuel as [|fuel IH]; intros link data; simpl; obl; auto.
Qed.

Lemma obl_get_all_results fuel link data :
  oblivious same_trace (Bitbucket.get_all_results fuel link data).
Proof.
  unfold Bitbucket.get_all_results. pose proof obl_paginate. obl; auto.
Qed.

Lemma obl_bitbucket_make_response fuel :
  oblivious (same_local same_trace) (Bitbucket.make_response fuel).
Proof.
  pose proof obl_get_all_results. pose proof obl_bitbucket_call.
  unfold Bitbucket.make_response, Bitbucket.process_repos,
    Bitbucket.process_repo, Bitbucket.get_followers_count,
    Bitbucket.update_watchers_count, Bitbucket.update_repo_count,
    Bitbucket.update_languages.
  obl; auto.
Qed.

Lemma obl_github_call url headers :
  oblivious same_trace (Github.make_api_call url headers).
Proof.
  unfold Github.make_api_call. pose proof obl_requests_get. obl; auto.
Qed.

Lemma obl_github_make_response :
  oblivious (same_local same_trace) (Github.make_response repr).
Proof.
  pose proof obl_github_call.
  unfold Github.make_response, Github.process_repos, Github.process_repo,
    Github.get_followers_count, Github.update_watchers_count,
    Github.update_topics, Github.update_repo_count, Github.update_languages,
    Github.get_all_repos, Github.fetch_page, Github.extend_results.
  obl; auto.
Qed.

(** C9.  When the transport answers each request by a fixed table, the
    result of [make_response] on a fresh collector for an organisation does
    not depend on the state the transport is in: any two runs return the
    same result, for each of the two collectors. *)
Theorem make_response_deterministic fuel org (w1 w2 : W) :
  (Bitbucket.run fuel org w1).1 = (Bitbucket.run fuel org w2).1
  ∧ (Github.run repr org w1).1 = (Github.run repr org w2).1.
Proof.
  split.
  - apply obl_bitbucket_make_response. split; reflexivity.
  - apply obl_github_make_response. split; reflexivity.
Qed.

End Deterministic.

Lemma make_response_deterministic_witness :
  (∀ (n : nat) rq, (counting_transport one_follower n rq).1 = one_follower rq)
  ∧ (@Bitbucket.run nat (counting_transport one_follower) 2 "test" 0%nat).1
    = (@Bitbucket.run nat (counting_transport one_follower) 2 "test" 7%nat).1
  ∧ (@Github.run nat (counting_transport one_follower) (λ _, "") "test" 0%nat).1
    = (@Github.run nat (counting_transport one_follower) (λ _, "") "test" 7%nat).1.
Proof.
  split; [reflexivity|].
  apply (@make_response_deterministic nat (counting_transport one_follower)
           (λ _, "") one_follower (λ _ _, eq_refl) 2 "test" 0%nat 7%nat).
Defined.

(** ** Reading the last page from a link header *)

#[local] Arguments Ascii.eqb : simpl never.

Lemma app_cons c s t : String c s +:+ t = String c (s +:+ t).
Proof. reflexivity. Qed.

Lemma app_empty_l t : "" +:+ t = t.
Proof. reflexivity. Qed.

Lemma app_empty_r s : s +:+ "" = s.
Proof. induction s as [|c s IH]; [reflexivity|]. rewrite app_cons, IH. reflexivity. Qed.

Lemma app_assoc_str s t u : (s +:+ t) +:+ u = s +:+ (t +:+ u).
Proof.
  induction s as [|c s IH]; [reflexivity|]. rewrite !app_cons, IH. reflexivity.
Qed.

Lemma length_app_str s t :
  String.length (s +:+ t) = (String.length s + String.length t)%nat.
Proof.
  induction s as [|c s IH]; [reflexivity|]. rewrite app_cons. simpl. rewrite IH.
  reflexivity.
Qed.

Lemma has_char_app c s t : has_char c (s +:+ t) = has_char c s || has_char c t.
Proof.
  induction s as [|c' s IH]; [reflexivity|]. rewrite app_cons. simpl.
  rewrite IH, orb_assoc. reflexivity.
Qed.

Ltac norm_app := rewrite ?app_cons, ?app_empty_l in *.

Lemma strip_prefix_Some p s r : strip_prefix p s = Some r → s = p +:+ r.
Proof.
  revert s. induction p as [|a p IH]; intros s H; simpl in H.
  - injection H as ->. reflexivity.
  - destruct s as [|b s]; [discriminate|].
    destruct (Ascii.eqb_spec a b) as [->|]; [|discriminate].
    rewrite app_cons. f_equal. apply IH, H.
Qed.

Lemma strip_prefix_app p r : strip_prefix p (p +:+ r) = Some r.
Proof.
  induction p as [|a p IH]; [reflexivity|].
  rewrite app_cons. simpl. rewrite Ascii.eqb_refl. exact IH.
Qed.

(** An occurrence of [page=] cannot overlap the next one. *)
Lemma page_no_overlap a z t :
  strip_prefix "page=" (a +:+ "page=" +:+ z) = Some t →
  (a = "" ∧ t = z) ∨ ∃ a', a = "page=" +:+ a' ∧ t = a' +:+ "page=" +:+ z.
Proof.
  intros H. apply strip_prefix_Some in H.
  destruct a as [|c1 [|c2 [|c3 [|c4 [|c5 a']]]]]; norm_app;
    injection H; intros; subst; try discriminate.
  - left. split; reflexivity.
  - right. exists a'. split; reflexivity.
Qed.

Lemma break_line_single s : has_char newline s = false → break_line s = (s, "").
Proof.
  induction s as [|c s IH]; [reflexivity|]. simpl. intros H.
  apply orb_false_iff in H as [Hc Hs]. rewrite Ascii.eqb_sym, Hc, (IH Hs).
  reflexivity.
Qed.

Lemma break_line_has_char c s :
  has_char c s = false → has_char c (break_line s).1 = false.
Proof.
  induction s as [|c' s IH]; [reflexivity|]. simpl. intros H.
  apply orb_false_iff in H as [Hc Hs].
  destruct (Ascii.eqb c' newline); [reflexivity|].
  specialize (IH Hs). destruct (break_line s) as [l r]. simpl in *.
  rewrite Hc, IH. reflexivity.
Qed.

Lemma rsplit_close_none s : has_char ">" s = false → rsplit_close s = None.
Proof.
  induction s as [|c s IH]; [reflexivity|]. simpl. intros H.
  apply orb_false_iff in H as [Hc Hs]. rewrite (IH Hs), Hc. reflexivity.
Qed.

Lemma rsplit_close_app x suf :
  has_char ">" suf = false → rsplit_close (x +:+ ">;" +:+ suf) = Some (x, suf).
Proof.
  intros Hs. induction x as [|c x IH].
  - norm_app. simpl. rewrite (rsplit_close_none _ Hs).
    destruct suf; reflexivity.
  - rewrite app_cons. simpl. rewrite IH. reflexivity.
Qed.

Lemma capture_app x suf :
  has_char newline x = false →
  has_char newline suf = false →
  has_char ">" suf = false →
  capture (x +:+ ">;" +:+ suf) = Some (x, suf).
Proof.
  intros Hx Hn Hs. unfold capture.
  rewrite break_line_single, (rsplit_close_app _ _ Hs), app_empty_r;
    [reflexivity|].
  rewrite !has_char_app, Hx, Hn. reflexivity.
Qed.

Lemma capture_none t : has_char ">" t = false → capture t = None.
Proof.
  intros H. unfold capture.
  pose proof (break_line_has_char ">" t H) as Hl.
  destruct (break_line t) as [l r]. simpl in Hl.
  rewrite (rsplit_close_none _ Hl). reflexivity.
Qed.

Lemma findall_go_none fuel : ∀ s, has_char ">" s = false → findall_go fuel s = [].
Proof.
  induction fuel as [|fuel IH]; intros s H; [reflexivity|].
  destruct s as [|c s]; [reflexivity|].
  assert (Hs : has_char ">" s = false).
  { simpl in H. apply orb_false_iff in H. apply H. }
  cbn [findall_go]. destruct (strip_prefix "page=" (String c s)) as [t|] eqn:Ht.
  - apply strip_prefix_Some in Ht. rewrite Ht, has_char_app in H.
    apply orb_false_iff in H as [_ H']. rewrite (capture_none _ H').
    apply IH, Hs.
  - apply IH, Hs.
Qed.

Lemma findall_go_last ds suf :
  has_char newline ds = false →
  has_char newline suf = false →
  has_char ">" suf = false →
  ∀ pre fuel,
    has_char newline pre = false →
    (String.length pre < fuel)%nat →
    ∃ g, findall_go fuel (pre +:+ "page=" +:+ ds +:+ ">;" +:+ suf) = [g]
         ∧ ends_in_page g ds.
Proof.
  intros Hds Hn Hs.
  induction pre as [|c pre IH]; intros fuel Hpre Hfuel;
    (destruct fuel as [|fuel]; [simpl in Hfuel; lia|]).
  - exists ds. split; [|left; reflexivity].
    set (rest := ds +:+ ">;" +:+ suf).
    change ("" +:+ "page=" +:+ rest) with (String "p" ("age=" +:+ rest)).
    cbn [findall_go].
    change (String "p" ("age=" +:+ rest)) with ("page=" +:+ rest).
    rewrite strip_prefix_app. subst rest.
    rewrite (capture_app _ _ Hds Hn Hs), (findall_go_none _ _ Hs).
    reflexivity.
  - rewrite app_cons. cbn [findall_go].
    simpl in Hpre. apply orb_false_iff in Hpre as [Hc Hpre].
    destruct (strip_prefix "page=" (String c (pre +:+ "page=" +:+ ds +:+ ">;" +:+ suf)))
      as [t|] eqn:Ht.
    + rewrite <- app_cons in Ht.
      apply (page_no_overlap (String c pre)) in Ht as [[Hnil _]|(a' & Ha & ->)];
        [discriminate|].
      assert (Ha' : has_char newline a' = false).
      { assert (H : has_char newline (String c pre) = false)
          by (simpl; rewrite Hc, Hpre; reflexivity).
        rewrite Ha, has_char_app in H. apply orb_false_iff in H. apply H. }
      exists (a' +:+ "page=" +:+ ds). split; [|right; exists a'; reflexivity].
      rewrite <- !app_assoc_str. rewrite (app_assoc_str _ ">;" suf).
      rewrite capture_app, (findall_go_none _ _ Hs); [reflexivity| |exact Hn|exact Hs].
      rewrite !app_assoc_str, !has_char_app, Ha', Hds. reflexivity.
    + apply IH; [exact Hpre|simpl in Hfuel; lia].
Qed.

Lemma digit_val_not_blank c d : digit_val c = Some d → int_blank c = false.
Proof.
  destruct c as [[] [] [] [] [] [] [] []]; vm_compute; congruence.
Qed.

Lemma digit_val_not_p c d : digit_val c = Some d → Ascii.eqb "p" c = false.
Proof.
  destruct c as [[] [] [] [] [] [] [] []]; vm_compute; congruence.
Qed.

Lemma digit_val_not_newline c d :
  digit_val c = Some d → Ascii.eqb newline c = false.
Proof.
  destruct c as [[] [] [] [] [] [] [] []]; vm_compute; congruence.
Qed.

(** A digit is no sign: [int] reads the whole text as digits. *)
Lemma digit_val_no_sign c d r :
  digit_val c = Some d →
  match String c r with
  | String "-" r' => (-1, r')
  | String "+" r' => (1, r')
  | _ => (1, String c r)
  end = (1, String c r).
Proof.
  destruct c as [[] [] [] [] [] [] [] []]; vm_compute; congruence.
Qed.

Lemma decimal_go_all_digits s : ∀ acc n,
  decimal_go acc s = Some n → all_digits s = true.
Proof.
  induction s as [|c s IH]; intros acc n H; [reflexivity|].
  simpl in *. destruct (digit_val c); [eapply IH, H|discriminate].
Qed.

Lemma all_digits_has_char c s :
  (∀ c' d, digit_val c' = Some d → Ascii.eqb c c' = false) →
  all_digits s = true → has_char c s = false.
Proof.
  intros Hc. induction s as [|c' s IH]; [reflexivity|]. simpl.
  destruct (digit_val c') eqn:Hd; [|discriminate].
  intros H. rewrite (Hc _ _ Hd), (IH H). reflexivity.
Qed.

Lemma all_digits_rstrip s : all_digits s = true → int_rstrip s = s.
Proof.
  induction s as [|c s IH]; [reflexivity|]. simpl.
  destruct (digit_val c) eqn:Hd; [|discriminate].
  intros H. rewrite (IH H), (digit_val_not_blank _ _ Hd).
  destruct s; reflexivity.
Qed.

Lemma all_digits_lstrip s : all_digits s = true → int_lstrip s = s.
Proof.
  destruct s as [|c s]; [reflexivity|]. simpl.
  destruct (digit_val c) eqn:Hd; [|discriminate].
  rewrite (digit_val_not_blank _ _ Hd). reflexivity.
Qed.

Lemma count_digits_le s : (count_digits s ≤ String.length s)%nat.
Proof.
  induction s as [|c s IH]; simpl; [lia|]. destruct (digit_val c); lia.
Qed.

Lemma digits_go_decimal s : ∀ acc b n,
  decimal_go acc s = Some n →
  s ≠ "" ∨ b = true →
  digits_go acc b s = Some n.
Proof.
  induction s as [|c s IH]; intros acc b n H Hb; simpl in *.
  - destruct Hb as [Hb| ->]; [contradiction|exact H].
  - destruct (digit_val c); [|discriminate].
    apply IH; [exact H|right; reflexivity].
Qed.

Lemma py_int_decimal ds n :
  decimal ds = Some n →
  (String.length ds ≤ int_max_str_digits)%nat →
  py_int ds = Ret n.
Proof.
  intros H Hlen. destruct ds as [|c ds]; [discriminate|].
  unfold decimal in H.
  pose proof (decimal_go_all_digits _ _ _ H) as Hall.
  pose proof (count_digits_le (String c ds)) as Hcount.
  unfold py_int, int_strip.
  rewrite (all_digits_lstrip _ Hall), (all_digits_rstrip _ Hall).
  assert (Hd : ∃ d, digit_val c = Some d).
  { simpl in Hall. destruct (digit_val c); [eauto|discriminate]. }
  destruct Hd as [d Hd]. rewrite (digit_val_no_sign _ _ _ Hd).
  rewrite (digits_go_decimal _ _ _ _ H) by (left; discriminate).
  replace (int_max_str_digits <? count_digits (String c ds))%nat with false
    by (symmetry; apply Nat.ltb_ge; etransitivity; eassumption).
  rewrite Z.mul_1_l. reflexivity.
Qed.

Lemma strip_prefix_no_p s : has_char "p" s = false → strip_prefix "page=" s = None.
Proof.
  destruct s as [|c s]; [reflexivity|]. simpl. intros H.
  apply orb_false_iff in H as [-> _]. reflexivity.
Qed.

Lemma split_go_no_sep s : ∀ fuel,
  has_char "p" s = false →
  (String.length s < fuel)%nat →
  split_go fuel "page=" s = [s].
Proof.
  induction s as [|c s IH]; intros fuel Hp Hfuel;
    (destruct fuel as [|fuel]; [simpl in Hfuel; lia|]);
    cbn [split_go]; rewrite (strip_prefix_no_p _ Hp); [reflexivity|].
  simpl in Hp. apply orb_false_iff in Hp as [_ Hp].
  rewrite IH; [reflexivity|exact Hp|simpl in Hfuel; lia].
Qed.

Lemma split_go_last ds :
  has_char "p" ds = false →
  ∀ fuel a,
    (String.length (a +:+ "page=" +:+ ds) < fuel)%nat →
    ∃ p ps, split_go fuel "page=" (a +:+ "page=" +:+ ds) = p :: ps ++ [ds].
Proof.
  intros Hp. induction fuel as [|fuel IH]; intros a Hfuel; [lia|].
  cbn [split_go].
  destruct (strip_prefix "page=" (a +:+ "page=" +:+ ds)) as [t|] eqn:Ht.
  - apply page_no_overlap in Ht as [[-> ->]|(a' & -> & ->)].
    + exists "", []. rewrite split_go_no_sep; [reflexivity|exact Hp|].
      rewrite !length_app_str in Hfuel. simpl in Hfuel. lia.
    + destruct (IH a') as (p & ps & ->).
      { rewrite !length_app_str in *. simpl in *. lia. }
      exists "", (p :: ps). reflexivity.
  - destruct a as [|c a].
    + rewrite app_empty_l, strip_prefix_app in Ht. discriminate.
    + rewrite app_cons. destruct (IH a) as (p & ps & ->).
      { rewrite app_cons in Hfuel. simpl in Hfuel. lia. }
      exists (String c p), ps. reflexivity.
Qed.

Lemma split_on_ends_in_page g ds :
  has_char "p" ds = false →
  ends_in_page g ds →
  py_last (split_on "page=" g) = Ret ds.
Proof.
  intros Hp [->|[a ->]]; unfold split_on, py_last.
  - rewrite split_go_no_sep; [reflexivity|exact Hp|lia].
  - destruct (split_go_last ds Hp (S (String.length (a +:+ "page=" +:+ ds))) a)
      as (p & ps & ->); [lia|].
    rewrite app_comm_cons, last_snoc. reflexivity.
Qed.

Lemma parse_closing_page_header h n :
  closing_page_header h n → parse_last_page h = Ret n.
Proof.
  intros (pre & ds & suf & -> & Hpre & Hnl' & Hclose & Hds & Hlen).
  assert (Hall : all_digits ds = true).
  { destruct ds; [discriminate|]. eapply decimal_go_all_digits, Hds. }
  pose proof (all_digits_has_char newline ds digit_val_not_newline Hall) as Hnl.
  pose proof (all_digits_has_char "p" ds digit_val_not_p Hall) as Hp.
  unfold parse_last_page, findall_page.
  destruct (findall_go_last ds suf Hnl Hnl' Hclose pre
              (String.length (pre +:+ "page=" +:+ ds +:+ ">;" +:+ suf))
              Hpre) as (g & -> & Hg).
  { rewrite length_app_str. simpl. lia. }
  simpl. rewrite (split_on_ends_in_page _ _ Hp Hg). simpl.
  apply py_int_decimal; assumption.
Qed.

(** [int] skips a no-break space but not a separator below the space, and
    [str.split()] splits at both. *)
Example int_and_split_blanks :
  py_int (String "5" (String (ascii_of_nat 160) "")) = Ret 5
  ∧ py_int (String (ascii_of_nat 28) "5") = Raise ValueError
  ∧ split_ws (String "a" (String (ascii_of_nat 160) "b")) = ["a"; "b"]
  ∧ split_ws (String "a" (String (ascii_of_nat 28) "b")) = ["a"; "b"].
Proof. repeat split; vm_compute; reflexivity. Qed.

Lemma has_infix_app p a b : has_infix p (a +:+ p +:+ b) = true.
Proof.
  induction a as [|c a IH].
  - rewrite app_empty_l.
    destruct (p +:+ b) eqn:E; simpl; rewrite <- ?E, strip_prefix_app;
      reflexivity.
  - rewrite app_cons. simpl. rewrite IH.
    destruct (strip_prefix p (String c (a +:+ p +:+ b))); reflexivity.
Qed.

Lemma rel_last_entry_infix h n : rel_last_entry h n → has_infix rel_last h = true.
Proof.
  intros (pre & ds & suf & -> & _).
  replace (pre +:+ "page=" +:+ ds +:+ rel_last +:+ suf)
    with ((pre +:+ "page=" +:+ ds) +:+ rel_last +:+ suf)
    by (rewrite !app_assoc_str; reflexivity).
  apply has_infix_app.
Qed.

(** ** The follower count of Github *)

Section GithubFollowers.
Context {W : Type} `{!Transport W}.

(** C4.  [get_followers_count] makes exactly one request, for one follower
    page.  When the answer has a link header in which the last [>;] closes
    a URL ending in [page=n], as the [rel="last"] entry does on a first
    page, the [followers] attribute grows by [n], whatever the [rel] values
    are; when the answer has no link header, it grows by the number of
    records in the answer.  No other attribute changes.  With the header of
    a first page of two, the count becomes 2 after that one request. *)
Theorem github_followers_count (self : Github.t) w tr r w' :
  fetch w (followers_request self) = (r, w') →
  let grown n :=
    Github.Self (Github.followers self + n) (Github.languages self)
      (Github.org self) (Github.repos self) (Github.results self)
      (Github.topics self) (Github.url self) (Github.watchers self) in
  (∃ o self',
      Github.get_followers_count (self, Net w tr)
      = (o, (self', Net w' (tr ++ [followers_request self]))))
  ∧ (∀ body hs h n,
      r = Response true body hs →
      Github.link_header hs = Some h →
      closing_page_header h n →
      Github.get_followers_count (self, Net w tr)
      = (Ret tt, (grown n, Net w' (tr ++ [followers_request self]))))
  ∧ (∀ recs hs,
      r = Response true (VList recs) hs →
      Github.link_header hs = None →
      Github.get_followers_count (self, Net w tr)
      = (Ret tt, (grown (Z.of_nat (length recs)),
                  Net w' (tr ++ [followers_request self]))))
  ∧ Github.get_followers_count
      (Github.init "test",
       Net [Response true (VList [VDict []]) [("link", LINK_HEADER)]] [])
    = (Ret tt,
       (Github.Self 2 ∅ "test" (Github.RepoCount 0 0) [] ∅
          "https://api.github.com" 0,
        Net [] [Request "https://api.github.com/users/test/followers?per_page=1"
                  []])).
Proof.
  intros Hf grown.
  assert (Hrun : ∀ k : Github.api_data → M (Github.t * net W) unit,
    (∀ d s, ∃ o self', k d s = (o, (self', s.2))) →
    ∃ o self',
      try_except
        (let* self0 := get_local in
         let* data := lift (Github.make_api_call
                              (Github.url self0 +:+ "/users/" +:+
                               Github.org self0 +:+ "/followers?per_page=1") []) in
         k data) ValueError (ret tt) (self, Net w tr)
      = (o, (self', Net w' (tr ++ [followers_request self])))).
  { intros k Hk.
    unfold try_except, bind, lift, get_local, Github.make_api_call,
      requests_get, bind; simpl.
    fold (followers_request self). rewrite Hf.
    destruct r as [[] body hs|]; simpl; eauto.
    destruct (Hk (Github.ApiData body hs)
                (self, Net w' (tr ++ [followers_request self])))
      as (o & self' & ->). simpl.
    destruct o as [| e|]; eauto. destruct (decide (e = ValueError)); eauto. }
  split; [|split; [|split]].
  - apply Hrun. intros d [s n]. simpl.
    destruct (Github.data_headers d) as [|x hs'];
      [|destruct (Github.link_header (x :: hs'))];
      unfold bind, lift_res, get_local, set_local; simpl;
      match goal with |- context [match ?r with _ => _ end] => destruct r end;
      eauto.
  - intros body hs h n -> Hh Hn.
    unfold Github.get_followers_count, try_except, bind, lift, get_local,
      Github.make_api_call, requests_get, bind; simpl.
    fold (followers_request self). rewrite Hf; simpl. rewrite Hh.
    destruct hs as [|x hs]; [discriminate|].
    unfold lift_res. rewrite (parse_closing_page_header _ _ Hn). reflexivity.
  - intros recs hs -> Hh.
    unfold Github.get_followers_count, try_except, bind, lift, get_local,
      Github.make_api_call, requests_get, bind; simpl.
    fold (followers_request self). rewrite Hf; simpl. rewrite Hh.
    destruct hs; reflexivity.
  - vm_compute. reflexivity.
Qed.

End GithubFollowers.

Lemma link_header_closes_at_2 : closing_page_header LINK_HEADER 2.
Proof.
  exists ("<https://api.github.com/organizations/216758/repos?per_page=1&page=1>; rel="
          +:+ dquote +:+ "next" +:+ dquote +:+ ", "
          +:+ "<https://api.github.com/organizations/216758/repos?per_page=1&"),
    "2", (" rel=" +:+ dquote +:+ "last" +:+ dquote).
  repeat split; try (vm_compute; reflexivity).
  unfold int_max_str_digits. simpl. lia.
Qed.

Lemma github_followers_count_witness :
  closing_page_header LINK_HEADER 2
  ∧ Github.get_followers_count
      (Github.init "test",
       Net [Response true (VList [VDict []]) [("link", LINK_HEADER)]] [])
    = (Ret tt,
       (Github.Self (0 + 2) ∅ "test" (Github.RepoCount 0 0) [] ∅
          "https://api.github.com" 0,
        Net [] ([] ++ [followers_request (Github.init "test")]))).
Proof.
  split; [exact link_header_closes_at_2|].
  destruct (github_followers_count (Github.init "test")
              [Response true (VList [VDict []]) [("link", LINK_HEADER)]] []
              (Response true (VList [VDict []]) [("link", LINK_HEADER)]) []
              eq_refl) as (_ & Hlast & _).
  apply (Hlast _ _ LINK_HEADER 2 eq_refl eq_refl link_header_closes_at_2).
Defined.

(** C4, as the specification words it, fails in both of its cases.  With a
    link header that names the last page, 7, before the next one, 2, the
    count grows by 2; with a link header that has a [next] entry only and
    an answer of one record, the count grows by 2 as well.  Either time one
    request is made. *)
Lemma follower_count_is_not_the_last_page :
  (∃ self',
     Github.get_followers_count
       (Github.init "test",
        Net [Response true (VList [VDict []]) [("link", LAST_FIRST_HEADER)]] [])
     = (Ret tt, (self', Net [] [followers_request (Github.init "test")]))
     ∧ Github.followers self' = 2
     ∧ rel_last_entry LAST_FIRST_HEADER 7
     ∧ ¬ followers_as_specified [("link", LAST_FIRST_HEADER)] [VDict []]
           (Github.followers self' - Github.followers (Github.init "test")))
  ∧ (∃ self',
       Github.get_followers_count
         (Github.init "test",
          Net [Response true (VList [VDict []]) [("link", NEXT_ONLY_HEADER)]] [])
       = (Ret tt, (self', Net [] [followers_request (Github.init "test")]))
       ∧ Github.followers self' = 2
       ∧ (∀ n, ¬ rel_last_entry NEXT_ONLY_HEADER n)
       ∧ ¬ followers_as_specified [("link", NEXT_ONLY_HEADER)] [VDict []]
             (Github.followers self' - Github.followers (Github.init "test"))).
Proof.
  assert (Hlast : rel_last_entry LAST_FIRST_HEADER 7).
  { exists "<https://api.github.com/user/1/followers?per_page=1&", "7",
      (", <https://api.github.com/user/1/followers?per_page=1&page=2>; rel="
       +:+ dquote +:+ "next" +:+ dquote).
    split; reflexivity. }
  assert (Hnone : ∀ n, ¬ rel_last_entry NEXT_ONLY_HEADER n).
  { intros n Hn. apply rel_last_entry_infix in Hn. vm_compute in Hn.
    discriminate. }
  split.
  - eexists. split; [vm_compute; reflexivity|].
    split; [reflexivity|]. split; [exact Hlast|].
    intros [Hspec _]. specialize (Hspec LAST_FIRST_HEADER 7 eq_refl Hlast).
    vm_compute in Hspec. discriminate.
  - eexists. split; [vm_compute; reflexivity|].
    split; [reflexivity|]. split; [exact Hnone|].
    intros [_ Hspec].
    assert (H : ∀ h n, assoc "link" [("link", NEXT_ONLY_HEADER)] = Some h →
                       ¬ rel_last_entry h n).
    { intros h n [= <-]. apply Hnone. }
    specialize (Hspec H). vm_compute in Hspec. discriminate.
Qed.

(** ** The merger leaves its arguments alone *)

Section Frame.
Import Heap.
Context (σ0 : store).

Lemma frames_refl : frames σ0 σ0.
Proof. intros l _. reflexivity. Qed.

Lemma frames_dom σ l : frames σ0 σ → l ∈ dom σ0 → l ∈ dom σ.
Proof.
  intros Hf Hl. apply elem_of_dom. rewrite (Hf l Hl). apply elem_of_dom, Hl.
Qed.

Lemma frames_insert σ l o :
  frames σ0 σ → l ∉ dom σ0 → frames σ0 (<[l := o]> σ).
Proof.
  intros Hf Hl l' Hl'. rewrite lookup_insert_ne; [apply Hf, Hl'|].
  intros ->. contradiction.
Qed.

Lemma frames_fresh σ o : frames σ0 σ → frames σ0 (<[fresh (dom σ) := o]> σ).
Proof.
  intros Hf. apply frames_insert; [exact Hf|].
  intros Hl. apply (is_fresh (dom σ)). eapply frames_dom; eauto.
Qed.

Lemma lookup_fresh (σ : store) l o x :
  σ !! l = Some x → <[fresh (dom σ) := o]> σ !! l = Some x.
Proof.
  intros H. rewrite lookup_insert_ne; [exact H|].
  intros <-. apply (is_fresh (dom σ)), elem_of_dom. eauto.
Qed.

Lemma owned_dict_fresh σ l o :
  owned_dict σ0 σ l → owned_dict σ0 (<[fresh (dom σ) := o]> σ) l.
Proof.
  intros (Hl & d & Hd). split; [exact Hl|]. exists d. apply lookup_fresh, Hd.
Qed.

Lemma stable_building res : stable (building σ0 res).
Proof.
  intros σ o (Hf & Hres & m & Hm & Hk). split; [apply frames_fresh, Hf|].
  split; [exact Hres|]. exists m. split; [apply lookup_fresh, Hm|].
  intros k Hin. destruct (Hk k Hin) as (l & Hl & Hne & Ho).
  exists l. split; [exact Hl|]. split; [exact Hne|]. apply owned_dict_fresh, Ho.
Qed.

Lemma stable_building_set res ls : stable (building_set σ0 res ls).
Proof.
  intros σ o (Hb & Hl & s & Hs). split; [apply stable_building, Hb|].
  split; [exact Hl|]. exists s. apply lookup_fresh, Hs.
Qed.

(** *** How each operation changes the store *)

Lemma keeps_bind {A B} P (m : M store A) (k : A → M store B) :
  keeps P m → (∀ a, keeps P (k a)) → keeps P (bind m k).
Proof.
  intros Hm Hk σ HP. unfold bind. specialize (Hm σ HP).
  destruct (m σ) as [[a|e|] σ']; simpl in *; [apply Hk, Hm|exact Hm..].
Qed.

Lemma keeps_ret {A} P (a : A) : keeps P (ret a).
Proof. intros σ HP. exact HP. Qed.

Lemma keeps_read {A} P (m : M store A) :
  (∀ σ, (m σ).2 = σ) → keeps P m.
Proof. intros Hm σ HP. rewrite Hm. exact HP. Qed.

Lemma getitem_reads v k σ : (getitem v k σ).2 = σ.
Proof. unfold getitem. repeat case_match; reflexivity. Qed.

Lemma len_reads v σ : (len v σ).2 = σ.
Proof. unfold len. repeat case_match; reflexivity. Qed.

Lemma iter_reads v σ : (iter v σ).2 = σ.
Proof. unfold iter. repeat case_match; reflexivity. Qed.

Lemma getitem2_reads v k1 k2 σ : (getitem2 v k1 k2 σ).2 = σ.
Proof.
  unfold getitem2, bind. pose proof (getitem_reads v k1 σ) as H.
  destruct (getitem v k1 σ) as [[a|e|] σ']; simpl in *; subst;
    [apply getitem_reads|reflexivity..].
Qed.

Lemma keeps_alloc P o : stable P → keeps P (alloc o).
Proof. intros HP σ H. apply HP, H. Qed.

Lemma keeps_add P a b : stable P → keeps P (add a b).
Proof.
  intros HP σ H. unfold add. repeat case_match; try exact H. apply HP, H.
Qed.

Lemma keeps_list_of P v : stable P → keeps P (list_of v).
Proof.
  intros HP. apply keeps_bind; [apply keeps_read, iter_reads|].
  intros items. apply keeps_alloc, HP.
Qed.

(** A write into a new dict keeps the state of the store. *)
Lemma building_write res σ l d k x :
  building σ0 res σ →
  l ∉ dom σ0 →
  σ !! l = Some (HDict d) →
  (l = res → k ∉ nested_keys) →
  building σ0 res (<[l := HDict (<[k := x]> d)]> σ).
Proof.
  intros (Hf & Hres & m & Hm & Hk) Hl Hd Hkey.
  split; [apply frames_insert; assumption|]. split; [exact Hres|].
  assert (Hown : ∀ l', owned_dict σ0 σ l' →
                       owned_dict σ0 (<[l := HDict (<[k := x]> d)]> σ) l').
  { intros l' (Hl' & d' & Hd'). split; [exact Hl'|].
    destruct (decide (l = l')) as [->|Hne].
    - eexists. apply lookup_insert_eq.
    - exists d'. rewrite lookup_insert_ne by exact Hne. exact Hd'. }
  destruct (decide (l = res)) as [->|Hne].
  - rewrite Hm in Hd. injection Hd as <-.
    exists (<[k := x]> m). split; [apply lookup_insert_eq|].
    intros k' Hin. destruct (Hk k' Hin) as (l' & Hl' & Hne' & Ho).
    exists l'. split; [|split; [exact Hne'|apply Hown, Ho]].
    rewrite lookup_insert_ne; [exact Hl'|].
    intros ->. apply (Hkey eq_refl), Hin.
  - exists m. split; [rewrite lookup_insert_ne by exact Hne; exact Hm|].
    intros k' Hin. destruct (Hk k' Hin) as (l' & Hl' & Hne' & Ho).
    exists l'. split; [exact Hl'|]. split; [exact Hne'|apply Hown, Ho].
Qed.

Lemma building_set_write res ls σ l d k x :
  building_set σ0 res ls σ →
  l ∉ dom σ0 →
  σ !! l = Some (HDict d) →
  (l = res → k ∉ nested_keys) →
  building_set σ0 res ls (<[l := HDict (<[k := x]> d)]> σ).
Proof.
  intros (Hb & Hls & s & Hs) Hl Hd Hkey.
  split; [eapply building_write; eassumption|]. split; [exact Hls|].
  exists s. rewrite lookup_insert_ne; [exact Hs|]. intros ->. congruence.
Qed.

Lemma invariant_building res : invariant σ0 res (building σ0 res).
Proof.
  split; [auto|]. split; [apply stable_building|].
  intros. eapply building_write; eassumption.
Qed.

Lemma invariant_building_set res ls : invariant σ0 res (building_set σ0 res ls).
Proof.
  split; [intros σ H; apply H|]. split; [apply stable_building_set|].
  intros. eapply building_set_write; eassumption.
Qed.

Lemma keeps_setitem res P k x :
  invariant σ0 res P → k ∉ nested_keys → keeps P (setitem (SRef res) k x).
Proof.
  intros (Hb & _ & Hw) Hk σ HP. unfold setitem.
  destruct (σ !! res) as [[| |d]|] eqn:Hres; try exact HP. simpl.
  apply Hw; [exact HP|apply (Hb σ HP)|exact Hres|intros _; exact Hk].
Qed.

Lemma keeps_setitem2 res P k1 k2 x :
  invariant σ0 res P → k1 ∈ nested_keys → keeps P (setitem2 (SRef res) k1 k2 x).
Proof.
  intros HI Hk σ HP. pose proof HI as (Hb & _ & Hw).
  destruct (Hb σ HP) as (_ & _ & m & Hm & Hkeys).
  destruct (Hkeys k1 Hk) as (l & Hl & Hne & Hl0 & d & Hd).
  unfold setitem2, bind, getitem, setitem. rewrite Hm, Hl, Hd. simpl.
  apply Hw; [exact HP|exact Hl0|exact Hd|intros ->; contradiction].
Qed.

Lemma keeps_set_update res ls v :
  keeps (building_set σ0 res ls) (set_update (SRef ls) v).
Proof.
  apply keeps_bind; [apply keeps_read, iter_reads|].
  intros items σ HP. pose proof HP as ((Hf & Hres & m & Hm & Hk) & Hls & s & Hs).
  rewrite Hs. destruct (add_all s items) as [r s'] eqn:Hadd. simpl.
  assert (Hown : ∀ l', owned_dict σ0 σ l' →
                       owned_dict σ0 (<[ls := HSet s']> σ) l').
  { intros l' (Hl' & d' & Hd'). split; [exact Hl'|]. exists d'.
    rewrite lookup_insert_ne; [exact Hd'|]. intros ->. congruence. }
  split; [split; [apply frames_insert; assumption|split; [exact Hres|]]|].
  - exists m. split.
    + rewrite lookup_insert_ne; [exact Hm|]. intros ->. congruence.
    + intros k Hin. destruct (Hk k Hin) as (l' & Hl' & Hne' & Ho).
      exists l'. split; [exact Hl'|]. split; [exact Hne'|apply Hown, Ho].
  - split; [exact Hls|]. exists s'. apply lookup_insert_eq.
Qed.

(** The set [languages] is new. *)
Lemma keeps_new_set {B} res (k : sval → M store B) :
  (∀ ls, keeps (building_set σ0 res ls) (k (SRef ls))) →
  keeps (building σ0 res) (bind (alloc (HSet ∅)) k).
Proof.
  intros Hk σ HP. unfold bind, alloc.
  apply (Hk (fresh (dom σ))). split; [apply stable_building, HP|].
  split; [|eexists; apply lookup_insert_eq].
  intros Hl. apply (is_fresh (dom σ)). eapply frames_dom; [apply HP|exact Hl].
Qed.

Ltac nested_key :=
  unfold nested_keys;
  first [ solve [repeat constructor]
        | rewrite !not_elem_of_cons; repeat split;
          first [discriminate | apply not_elem_of_nil] ].

Ltac keeps_step res :=
  first
    [ apply keeps_ret
    | apply keeps_read; first [ apply getitem_reads | apply getitem2_reads
                              | apply len_reads | apply iter_reads ]
    | apply keeps_add; apply stable_building_set
    | apply keeps_add; apply stable_building
    | apply keeps_list_of; apply stable_building_set
    | apply keeps_set_update
    | apply (keeps_setitem res); [first [apply invariant_building_set
                                        | apply invariant_building]
                                 | nested_key ]
    | apply (keeps_setitem2 res); [first [apply invariant_building_set
                                         | apply invariant_building]
                                  | nested_key ]
    | apply keeps_bind; [|intros ?] ].

Lemma keeps_fill res b g : keeps (building σ0 res) (fill (SRef res) b g).
Proof.
  unfold fill.
  do 3 (apply keeps_bind; [keeps_step res|intros ?]).
  apply keeps_bind; [keeps_step res|intros _].
  apply keeps_new_set. intros ls.
  repeat keeps_step res.
Qed.

Lemma new_results_building :
  ∃ res σ, new_results σ0 = (Ret (SRef res), σ) ∧ building σ0 res σ.
Proof.
  unfold new_results, bind, alloc.
  set (l1 := fresh (dom σ0)).
  set (σ1 := <[l1 := HDict ∅]> σ0).
  set (l2 := fresh (dom σ1)).
  set (σ2 := <[l2 := HDict ∅]> σ1).
  set (l3 := fresh (dom σ2)).
  set (σ3 := <[l3 := HDict ∅]> σ2).
  set (res := fresh (dom σ3)).
  eexists _, _. split; [reflexivity|].
  assert (H1 : frames σ0 σ1) by apply frames_fresh, frames_refl.
  assert (H2 : frames σ0 σ2) by apply frames_fresh, H1.
  assert (H3 : frames σ0 σ3) by apply frames_fresh, H2.
  assert (Hnew : ∀ σ, frames σ0 σ → fresh (dom σ) ∉ dom σ0).
  { intros σ Hf Hl. apply (is_fresh (dom σ)). eapply frames_dom; eauto. }
  assert (O1 : owned_dict σ0 σ1 l1).
  { split; [apply Hnew, frames_refl|eexists; apply lookup_insert_eq]. }
  assert (O2 : owned_dict σ0 σ2 l2).
  { split; [apply Hnew, H1|eexists; apply lookup_insert_eq]. }
  assert (O3 : owned_dict σ0 σ3 l3).
  { split; [apply Hnew, H2|eexists; apply lookup_insert_eq]. }
  assert (Hin : ∀ (σ : store) l, is_Some (σ !! l) → l ≠ fresh (dom σ)).
  { intros σ l Hl ->. apply (is_fresh (dom σ)), elem_of_dom, Hl. }
  assert (Hown : ∀ σ l, owned_dict σ0 σ l → is_Some (σ !! l)).
  { intros σ l (_ & d & Hd). eauto. }
  split; [apply frames_fresh, H3|]. split; [apply Hnew, H3|].
  eexists. split; [apply lookup_insert_eq|].
  intros k Hk. unfold nested_keys in Hk.
  apply elem_of_cons in Hk as [->|Hk]; [|apply elem_of_cons in Hk as [->|Hk];
    [|apply list_elem_of_singleton in Hk as ->]].
  - exists l1. split; [reflexivity|].
    pose proof (owned_dict_fresh _ _ (HDict ∅) (owned_dict_fresh _ _ (HDict ∅) O1)) as O.
    split; [apply Hin, Hown, O|]. apply owned_dict_fresh, O.
  - exists l2. split; [reflexivity|].
    pose proof (owned_dict_fresh _ _ (HDict ∅) O2) as O.
    split; [apply Hin, Hown, O|]. apply owned_dict_fresh, O.
  - exists l3. split; [reflexivity|].
    split; [apply Hin, Hown, O3|]. apply owned_dict_fresh, O3.
Qed.

(** C10.  [combine] changes no object that existed before the call: the
    two arguments and everything they refer to are as they were, however
    the call ends.  When it returns, the result is a dict that did not
    exist before, and so are its nested [languages], [topics] and [repos]
    dicts; all writes went to objects made during the call. *)
Theorem combine_leaves_arguments b g :
  match combine b g σ0 with
  | (Ret r, σ) => ∃ res, r = SRef res ∧ building σ0 res σ
  | (_, σ) => frames σ0 σ
  end.
Proof.
  destruct new_results_building as (res & σ1 & Hnew & Hb).
  unfold combine, bind. rewrite Hnew.
  pose proof (keeps_fill res b g σ1 Hb) as Hfill.
  destruct (fill (SRef res) b g σ1) as [[[]|e|] σ]; simpl in *.
  - exists res. split; [reflexivity|exact Hfill].
  - apply Hfill.
  - apply Hfill.
Qed.

End Frame.

(** ** What the merger computes *)

(** What a new location is not. *)
Ltac new_location l :=
  match goal with
  | |- context [fresh (dom ?σ)] =>
      lazymatch σ with context [fresh _] => fail | _ => idtac end;
      let H := fresh "Hnew" in
      pose proof (is_fresh (dom σ)) as H;
      set (l := fresh (dom σ)) in *; clearbody l;
      rewrite ?dom_insert_L, ?not_elem_of_union, ?not_elem_of_singleton in H;
      destruct_and?
  end.

Ltac other_way :=
  repeat match goal with
         | H : ?a ≠ ?b |- _ =>
             lazymatch goal with
             | _ : b ≠ a |- _ => fail
             | _ => pose proof (not_eq_sym H)
             end
         end.

Ltac store_lookup :=
  repeat first [ rewrite lookup_insert_eq
               | rewrite lookup_insert_ne by assumption ];
  reflexivity.

Ltac dict_lookup :=
  repeat first [ rewrite lookup_insert_eq
               | rewrite lookup_insert_ne by discriminate
               | rewrite lookup_singleton_eq ];
  reflexivity.

Ltac frames_now :=
  repeat (apply frames_insert; [|assumption]); apply frames_refl.

Section Merge.
Import Heap.
Context (σ0 : store).

Lemma ends_bind {A B} (P : B → store → Prop) (m : M store A) k σ a σ1 :
  m σ = (Ret a, σ1) → ends P (k a σ1) → ends P (bind m k σ).
Proof. intros Hm Hk. unfold bind. rewrite Hm. exact Hk. Qed.

Lemma ends_then {A B} (Q : A → store → Prop) (P : B → store → Prop)
    (m : M store A) k σ :
  ends Q (m σ) → (∀ a σ1, Q a σ1 → ends P (k a σ1)) → ends P (bind m k σ).
Proof.
  intros (a & σ1 & Hm & HQ) Hk. unfold bind. rewrite Hm. apply Hk, HQ.
Qed.

Lemma ends_here {A} (P : A → store → Prop) (m : M store A) σ a σ1 :
  m σ = (Ret a, σ1) → P a σ1 → ends P (m σ).
Proof. intros Hm HP. exists a, σ1. split; assumption. Qed.

Lemma frames_lookup σ l o : frames σ0 σ → σ0 !! l = Some o → σ !! l = Some o.
Proof.
  intros Hf Hl. rewrite (Hf l); [exact Hl|]. apply elem_of_dom. eauto.
Qed.

Lemma getitem_run σ l d k x :
  σ !! l = Some (HDict d) → d !! k = Some x →
  getitem (SRef l) k σ = (Ret x, σ).
Proof. intros Hl Hk. unfold getitem. rewrite Hl, Hk. reflexivity. Qed.

Lemma getitem2_run σ l d k1 l' d' k2 x :
  σ !! l = Some (HDict d) → d !! k1 = Some (SRef l') →
  σ !! l' = Some (HDict d') → d' !! k2 = Some x →
  getitem2 (SRef l) k1 k2 σ = (Ret x, σ).
Proof.
  intros Hl Hk Hl' Hk'. unfold getitem2, bind.
  rewrite (getitem_run _ _ _ _ _ Hl Hk). apply (getitem_run _ _ _ _ _ Hl' Hk').
Qed.

Lemma setitem_run σ l d k x :
  σ !! l = Some (HDict d) →
  setitem (SRef l) k x σ = (Ret tt, <[l := HDict (<[k := x]> d)]> σ).
Proof. intros Hl. unfold setitem. rewrite Hl. reflexivity. Qed.

Lemma setitem2_run σ l d k1 l' d' k2 x :
  σ !! l = Some (HDict d) → d !! k1 = Some (SRef l') →
  σ !! l' = Some (HDict d') →
  setitem2 (SRef l) k1 k2 x σ = (Ret tt, <[l' := HDict (<[k2 := x]> d')]> σ).
Proof.
  intros Hl Hk Hl'. unfold setitem2, bind.
  rewrite (getitem_run _ _ _ _ _ Hl Hk). apply (setitem_run _ _ _ _ _ Hl').
Qed.

Lemma hash_key_unhash h : hash_key (unhash h) = Ret h.
Proof. destruct h; reflexivity. Qed.

Lemma add_all_hashables hs : ∀ s,
  add_all s (unhash <$> hs) = (Ret tt, s ∪ list_to_set hs).
Proof.
  induction hs as [|h hs IH]; intros s; simpl.
  - rewrite (right_id_L ∅ (∪)). reflexivity.
  - rewrite hash_key_unhash, IH, (assoc_L (∪)). reflexivity.
Qed.

Lemma set_update_run σ l s l' s' :
  σ !! l = Some (HSet s) → σ !! l' = Some (HSet s') →
  set_update (SRef l) (SRef l') σ = (Ret tt, <[l := HSet (s ∪ s')]> σ).
Proof.
  intros Hl Hl'. unfold set_update, bind, iter. rewrite Hl', Hl.
  rewrite add_all_hashables, list_to_set_elements_L. reflexivity.
Qed.

Lemma iter_items σ l items :
  holds_items σ l items → iter (SRef l) σ = (Ret items, σ).
Proof.
  intros [Hl|(s & Hl & ->)]; unfold iter; rewrite Hl; reflexivity.
Qed.

Lemma list_of_run σ l items :
  holds_items σ l items →
  list_of (SRef l) σ
  = (Ret (SRef (fresh (dom σ))), <[fresh (dom σ) := HList items]> σ).
Proof.
  intros H. unfold list_of, bind. rewrite (iter_items _ _ _ H). reflexivity.
Qed.

Lemma len_run σ l items :
  holds_items σ l items →
  len (SRef l) σ = (Ret (SInt (Z.of_nat (length items))), σ).
Proof.
  intros [Hl|(s & Hl & ->)]; unfold len; rewrite Hl; [reflexivity|].
  rewrite length_fmap. reflexivity.
Qed.

Lemma holds_items_frames σ l items :
  frames σ0 σ → holds_items σ0 l items → holds_items σ l items.
Proof.
  intros Hf [Hl|(s & Hl & ->)]; [left|right; exists s; split; [|reflexivity]];
    eapply frames_lookup; eassumption.
Qed.


Lemma new_results_run :
  ∃ l1 l2 l3 res,
    new_results σ0
    = (Ret (SRef res),
       <[res := HDict (<["languages" := SRef l1]>
                         (<["topics" := SRef l2]> {["repos" := SRef l3]}))]>
         (<[l3 := HDict ∅]> (<[l2 := HDict ∅]> (<[l1 := HDict ∅]> σ0))))
    ∧ ((l1 ∉ dom σ0) ∧ (l2 ∉ dom σ0) ∧ (l3 ∉ dom σ0) ∧ (res ∉ dom σ0))
    ∧ (l1 ≠ l2 ∧ l1 ≠ l3 ∧ l1 ≠ res ∧ l2 ≠ l3 ∧ l2 ≠ res ∧ l3 ≠ res).
Proof.
  unfold new_results, bind, alloc.
  do 4 (let l := fresh "l" in new_location l).
  other_way.
  eexists _, _, _, _. split; [reflexivity|]. repeat split; assumption.
Qed.

Lemma combine_run b g A B T :
  is_aggregate σ0 b A → is_aggregate σ0 g B → has_topics σ0 g T →
  ends (λ r σ, is_merged σ r (expected A B T)) (combine b g σ0).
Proof.
  intros (lb & db & lbl & lbr & dbr & -> & Hb & Hbf & Hbl & Hbls & Hbr & Hbrd
          & Hbfk & Hbuf & Hbw).
  intros (lg & dg & lgl & lgr & dgr & -> & Hg & Hgf & Hgl & Hgls & Hgr & Hgrd
          & Hgfk & Hguf & Hgw).
  intros (lg' & dg' & lt & [= <-] & Hg' & Hgt & Hitems).
  rewrite Hg in Hg'. injection Hg' as <-.
  destruct new_results_run as (l1 & l2 & l3 & res & Hnew & ? & ?).
  destruct_and!. other_way.
  unfold combine. eapply ends_bind; [exact Hnew|]. clear Hnew.
  apply (ends_then (λ _ σ, is_merged σ (SRef res) (expected A B T)));
    [|intros _ σ1 Hm; eexists _, _; split; [reflexivity|exact Hm]].
  unfold fill.
  (* results['followers'] *)
  eapply ends_bind;
    [eapply getitem_run; [eapply frames_lookup; [frames_now|exact Hb]|exact Hbf]|].
  eapply ends_bind;
    [eapply getitem_run; [eapply frames_lookup; [frames_now|exact Hg]|exact Hgf]|].
  eapply ends_bind; [reflexivity|].
  eapply ends_bind; [eapply setitem_run; store_lookup|].
  (* languages *)
  eapply ends_bind; [reflexivity|]. new_location l5. other_way.
  eapply ends_bind;
    [eapply getitem_run; [eapply frames_lookup; [frames_now|exact Hb]|exact Hbl]|].
  eapply ends_bind;
    [eapply set_update_run; [store_lookup|eapply frames_lookup; [frames_now|exact Hbls]]|].
  eapply ends_bind;
    [eapply getitem_run; [eapply frames_lookup; [frames_now|exact Hg]|exact Hgl]|].
  eapply ends_bind;
    [eapply set_update_run; [store_lookup|eapply frames_lookup; [frames_now|exact Hgls]]|].
  eapply ends_bind; [eapply list_of_run; right; eexists; split; [store_lookup|reflexivity]|].
  new_location l6. other_way.
  eapply ends_bind; [eapply setitem2_run; [store_lookup|dict_lookup|store_lookup]|].
  eapply ends_bind;
    [eapply getitem2_run; [store_lookup|dict_lookup|store_lookup|dict_lookup]|].
  eapply ends_bind; [eapply len_run; left; store_lookup|].
  eapply ends_bind; [eapply setitem2_run; [store_lookup|dict_lookup|store_lookup]|].
  (* topics *)
  eapply ends_bind;
    [eapply getitem_run; [eapply frames_lookup; [frames_now|exact Hg]|exact Hgt]|].
  eapply ends_bind;
    [eapply list_of_run, holds_items_frames; [frames_now|exact Hitems]|].
  new_location l7. other_way.
  eapply ends_bind; [eapply setitem2_run; [store_lookup|dict_lookup|store_lookup]|].
  eapply ends_bind;
    [eapply getitem_run; [eapply frames_lookup; [frames_now|exact Hg]|exact Hgt]|].
  eapply ends_bind;
    [eapply len_run, holds_items_frames; [frames_now|exact Hitems]|].
  eapply ends_bind; [eapply setitem2_run; [store_lookup|dict_lookup|store_lookup]|].
  (* repos *)
  eapply ends_bind;
    [eapply getitem2_run;
       [eapply frames_lookup; [frames_now|exact Hb]|exact Hbr
       |eapply frames_lookup; [frames_now|exact Hbrd]|exact Hbfk]|].
  eapply ends_bind;
    [eapply getitem2_run;
       [eapply frames_lookup; [frames_now|exact Hg]|exact Hgr
       |eapply frames_lookup; [frames_now|exact Hgrd]|exact Hgfk]|].
  eapply ends_bind; [reflexivity|].
  eapply ends_bind; [eapply setitem2_run; [store_lookup|dict_lookup|store_lookup]|].
  eapply ends_bind;
    [eapply getitem2_run;
       [eapply frames_lookup; [frames_now|exact Hb]|exact Hbr
       |eapply frames_lookup; [frames_now|exact Hbrd]|exact Hbuf]|].
  eapply ends_bind;
    [eapply getitem2_run;
       [eapply frames_lookup; [frames_now|exact Hg]|exact Hgr
       |eapply frames_lookup; [frames_now|exact Hgrd]|exact Hguf]|].
  eapply ends_bind; [reflexivity|].
  eapply ends_bind; [eapply setitem2_run; [store_lookup|dict_lookup|store_lookup]|].
  eapply ends_bind;
    [eapply getitem2_run; [store_lookup|dict_lookup|store_lookup|dict_lookup]|].
  eapply ends_bind;
    [eapply getitem2_run; [store_lookup|dict_lookup|store_lookup|dict_lookup]|].
  eapply ends_bind; [reflexivity|].
  eapply ends_bind; [eapply setitem2_run; [store_lookup|dict_lookup|store_lookup]|].
  (* results['watchers'] *)
  eapply ends_bind;
    [eapply getitem_run; [eapply frames_lookup; [frames_now|exact Hb]|exact Hbw]|].
  eapply ends_bind;
    [eapply getitem_run; [eapply frames_lookup; [frames_now|exact Hg]|exact Hgw]|].
  eapply ends_bind; [reflexivity|].
  eapply ends_here; [eapply setitem_run; store_lookup|].
  (* the store at the end *)
  rewrite !(left_id_L ∅ (∪) (a_languages A)).
  eexists res, _, l1, _, l6, l2, _, l7, l3, _.
  split; [reflexivity|].
  repeat (split; [first [store_lookup | dict_lookup]|]).
  dict_lookup.
Qed.

Lemma unhash_inj : Inj (=) (=) unhash.
Proof. intros [] [] H; simplify_eq; reflexivity. Qed.

(** C8.  For well-formed finished results [A] and [B], the second one with
    topics, [combine] returns a merged result whose followers, watchers,
    forked and unforked counts are the sums of those of [A] and [B], whose
    language list holds the languages of [A] and of [B], each once, with
    its length as count, and whose topic list and count are those of
    [B]. *)
Theorem combine_merges b g A B T :
  is_aggregate σ0 b A →
  is_aggregate σ0 g B →
  has_topics σ0 g T →
  ∃ r σ m,
    combine b g σ0 = (Ret r, σ)
    ∧ is_merged σ r m
    ∧ m_followers m = a_followers A + a_followers B
    ∧ m_watchers m = a_watchers A + a_watchers B
    ∧ m_forked m = a_forked A + a_forked B
    ∧ m_unforked m = a_unforked A + a_unforked B
    ∧ NoDup (m_languages m)
    ∧ (∀ x, x ∈ m_languages m
            ↔ ∃ h, x = unhash h ∧ (h ∈ a_languages A ∨ h ∈ a_languages B))
    ∧ m_language_count m = Z.of_nat (length (m_languages m))
    ∧ m_topics m = T
    ∧ m_topic_count m = Z.of_nat (length T).
Proof.
  intros HA HB HT.
  destruct (combine_run b g A B T HA HB HT) as (r & σ & Hrun & Hm).
  exists r, σ, (expected A B T). split; [exact Hrun|]. split; [exact Hm|].
  simpl. repeat split; try reflexivity.
  - apply (NoDup_fmap_2 (Inj0 := unhash_inj) unhash), NoDup_elements.
  - intros Hx. apply list_elem_of_fmap in Hx as (h & -> & Hh).
    exists h. split; [reflexivity|]. apply elem_of_elements in Hh.
    apply elem_of_union in Hh. exact Hh.
  - intros (h & -> & Hh). apply list_elem_of_fmap. exists h.
    split; [reflexivity|]. apply elem_of_elements, elem_of_union. exact Hh.
Qed.

End Merge.

Lemma assoc_dict_set_eq {A} k (v : A) d : assoc k (dict_set k v d) = Some v.
Proof.
  induction d as [|[k' v'] d IH]; simpl.
  - rewrite String.eqb_refl. reflexivity.
  - destruct (String.eqb k k') eqn:E; simpl; rewrite ?E, ?String.eqb_refl;
      [reflexivity|exact IH].
Qed.

Lemma assoc_dict_set_ne {A} k k' (v : A) d :
  k ≠ k' → assoc k (dict_set k' v d) = assoc k d.
Proof.
  intros Hne. apply String.eqb_neq in Hne.
  induction d as [|[k'' v''] d IH]; simpl.
  - rewrite Hne. reflexivity.
  - destruct (String.eqb k' k'') eqn:E; simpl.
    + apply String.eqb_eq in E as <-. rewrite Hne. reflexivity.
    + rewrite IH. reflexivity.
Qed.

Section PerPlatform.
Context {W : Type} `{!Transport W}.
Context (repr : value → string).

Lemma bitbucket_two_fields fuel s :
  two_fields (Bitbucket.make_response fuel s).1.
Proof.
  unfold Bitbucket.make_response, bind, try_except.
  destruct (Bitbucket.process_repos fuel s) as [[[]|e|] s']; simpl;
    [|destruct (decide (e = ConnectionResetError)); simpl|]; try exact I;
    unfold Bitbucket.finalize; simpl;
    rewrite assoc_dict_set_ne, assoc_dict_set_eq by discriminate;
    eexists _, _; reflexivity.
Qed.

Lemma github_two_fields s : two_fields (Github.make_response repr s).1.
Proof.
  unfold Github.make_response, bind, try_except.
  destruct (Github.process_repos repr s) as [[[]|e|] s']; simpl;
    [|destruct (decide (e = ConnectionResetError)); simpl|]; try exact I;
    unfold Github.finalize; simpl;
    rewrite !assoc_dict_set_ne, assoc_dict_set_eq by discriminate;
    eexists _, _; reflexivity.
Qed.

(** C2, as the code has it.  The merged result of two well-formed finished
    results has [repos.count = repos.forked + repos.unforked].  The result
    of [make_response] of either collector has a [repos] dict with exactly
    the two fields [forked] and [unforked], and so no [count]. *)
Theorem repos_count_is_sum σ0 b g A B T fuel org (w : W) :
  is_aggregate σ0 b A →
  is_aggregate σ0 g B →
  has_topics σ0 g T →
  (∃ r σ m,
      Heap.combine b g σ0 = (Ret r, σ)
      ∧ is_merged σ r m
      ∧ m_count m = m_forked m + m_unforked m)
  ∧ two_fields (Bitbucket.run fuel org w).1
  ∧ two_fields (Github.run repr org w).1.
Proof.
  intros HA HB HT. split; [|split].
  - destruct (combine_run σ0 b g A B T HA HB HT) as (r & σ & Hrun & Hm).
    exists r, σ, (expected A B T). split; [exact Hrun|]. split; [exact Hm|].
    reflexivity.
  - apply bitbucket_two_fields.
  - apply github_two_fields.
Qed.

End PerPlatform.

(** C2, as the specification words it, fails for the result of a collector:
    its [repos] dict has no [count] to compare. *)
Lemma per_platform_has_no_count :
  ∃ r, (Bitbucket.run 1 "test" unreachable).1 = Ret r ∧ ¬ count_invariant r.
Proof.
  exists bitbucket_default. split; [reflexivity|].
  intros (repos & c & f & u & Hrepos & Hc & _).
  injection Hrepos as <-. discriminate Hc.
Qed.

Lemma sample_bitbucket_aggregate :
  is_aggregate sample_store (Heap.SRef 1%positive)
    (Aggregate 1 {[HStr "python"]} 1 1 1).
Proof.
  eexists 1%positive, _, 2%positive, 3%positive, _.
  repeat split; reflexivity.
Qed.

Lemma sample_github_aggregate :
  is_aggregate sample_store (Heap.SRef 4%positive)
    (Aggregate 1 {[HStr "javascript"]} 1 1 1).
Proof.
  eexists 4%positive, _, 5%positive, 6%positive, _.
  repeat split; reflexivity.
Qed.

Lemma sample_github_topics :
  has_topics sample_store (Heap.SRef 4%positive) [Heap.SStr "flask"].
Proof.
  eexists 4%positive, _, 7%positive. repeat split; try reflexivity.
  right. exists {[HStr "flask"]}. split; reflexivity.
Qed.

Lemma combine_merges_witness :
  ∃ r σ m,
    Heap.combine (Heap.SRef 1%positive) (Heap.SRef 4%positive) sample_store = (Ret r, σ)
    ∧ is_merged σ r m
    ∧ m_followers m = 1 + 1
    ∧ m_watchers m = 1 + 1
    ∧ m_forked m = 1 + 1
    ∧ m_unforked m = 1 + 1
    ∧ NoDup (m_languages m)
    ∧ (∀ x, x ∈ m_languages m
            ↔ ∃ h, x = Heap.unhash h
                   ∧ (h ∈ ({[HStr "python"]} : gset hashable)
                      ∨ h ∈ ({[HStr "javascript"]} : gset hashable)))
    ∧ m_language_count m = Z.of_nat (length (m_languages m))
    ∧ m_topics m = [Heap.SStr "flask"]
    ∧ m_topic_count m = Z.of_nat (length [Heap.SStr "flask"]).
Proof.
  apply (combine_merges sample_store _ _ _ _ _ sample_bitbucket_aggregate
           sample_github_aggregate sample_github_topics).
Defined.

Lemma repos_count_is_sum_witness :
  (∃ r σ m,
      Heap.combine (Heap.SRef 1%positive) (Heap.SRef 4%positive) sample_store = (Ret r, σ)
      ∧ is_merged σ r m
      ∧ m_count m = m_forked m + m_unforked m)
  ∧ two_fields (Bitbucket.run 1 "test" unreachable).1
  ∧ two_fields (Github.run (λ _, "") "test" unreachable).1.
Proof.
  apply (repos_count_is_sum (λ _, "") sample_store _ _ _ _ _ 1 "test"
           unreachable sample_bitbucket_aggregate sample_github_aggregate
           sample_github_topics).
Defined.

(** * Further properties of the code *)

(** ** Header pagination, all pages served *)

Section HeaderPagination.
Context {W : Type} `{!Transport W}.

Lemma serves_numbered_length w link k n pages w' :
  serves_numbered w link k n pages Complete w' → length pages = n.
Proof.
  intros H. remember Complete as e eqn:He.
  induction H as [| |w link k n recs hs w1 pages e w' Hf Hs IH];
    [reflexivity|discriminate|].
  simpl. rewrite (IH He). reflexivity.
Qed.

(** X1.  When the first page of [get_all_repos] carries a link header that
    reads as [total] pages and the pages 2 to [total] are served, the
    result is the records of page 1 followed by those of the later pages in
    order, and the requests are the link itself and then the link with
    [&page=k] appended, for [k] from 2 to [total], once each. *)
Theorem get_all_repos_walks_pages w link recs hs w1 h total pages w' tr :
  fetch w (Request link []) = (Response true (VList recs) hs, w1) →
  Github.link_header hs = Some h →
  Github.get_total_pages h = Ret total →
  serves_numbered w1 link 2 (Z.to_nat (total - 1)) pages Complete w' →
  Github.get_all_repos link (Net w tr)
  = (Ret (VList (recs ++ concat pages)),
     Net w' (tr ++ Request link []
                :: (page_request link <$> seqZ 2 (total - 1)))).
Proof.
  intros Hf Hh Ht Hs.
  rewrite (get_all_repos_serves w link (recs :: pages) Complete w' tr)
    by (eapply repos_paged; eassumption).
  simpl. unfold numbered_requests.
  rewrite (serves_numbered_length _ _ _ _ _ _ Hs), app_nil_r.
  rewrite <- seqZ_to_nat. reflexivity.
Qed.

(** X2.  A first page without a link header is the only page: one request,
    and the result is its records. *)
Theorem get_all_repos_single_page w link recs hs w' tr :
  fetch w (Request link []) = (Response true (VList recs) hs, w') →
  Github.link_header hs = None →
  Github.get_all_repos link (Net w tr)
  = (Ret (VList recs), Net w' (tr ++ [Request link []])).
Proof.
  intros Hf Hh.
  rewrite (get_all_repos_serves w link [recs] Complete w' tr)
    by (eapply repos_single; eassumption).
  simpl. rewrite !app_nil_r. reflexivity.
Qed.

(** X3.  A link header in which no link is found (no [>] at all) makes
    [get_total_pages] raise [IndexError], which no handler catches: it
    escapes [get_all_repos], and [get_followers_count] as well. *)
Theorem link_header_without_link_escapes
    (self : Github.t) w link recs hs w1 h tr :
  Github.link_header hs = Some h →
  has_char ">" h = false →
  Github.get_total_pages h = Raise IndexError
  ∧ (fetch w (Request link []) = (Response true (VList recs) hs, w1) →
     Github.get_all_repos link (Net w tr)
     = (Raise IndexError, Net w1 (tr ++ [Request link []])))
  ∧ (fetch w (followers_request self) = (Response true (VList recs) hs, w1) →
     Github.get_followers_count (self, Net w tr)
     = (Raise IndexError, (self, Net w1 (tr ++ [followers_request self])))).
Proof.
  intros Hh Hgt.
  assert (Hp : parse_last_page h = Raise IndexError).
  { unfold parse_last_page, findall_page.
    rewrite (findall_go_none _ _ Hgt). reflexivity. }
  split; [exact Hp|]. split; intros Hf.
  - unfold Github.get_all_repos, with_local, bind, try_except, lift,
      Github.make_api_call, requests_get, bind; simpl; rewrite Hf; simpl.
    rewrite Hh. unfold lift_res, Github.get_total_pages. rewrite Hp.
    reflexivity.
  - unfold Github.get_followers_count, try_except, bind, lift, get_local,
      Github.make_api_call, requests_get, bind; simpl.
    fold (followers_request self). rewrite Hf; simpl. rewrite Hh.
    destruct hs as [|x hs]; [discriminate|].
    unfold lift_res. rewrite Hp. reflexivity.
Qed.

(** X4.  A link header in which the text after the last [page=] is no
    integer is treated like an invalid request: [get_all_repos] returns the
    first page alone and [get_followers_count] leaves the count as it was,
    both without raising and without a further request. *)
Theorem link_header_without_number_is_absorbed
    (self : Github.t) w link recs hs w1 h tr :
  Github.link_header hs = Some h →
  parse_last_page h = Raise ValueError →
  (fetch w (Request link []) = (Response true (VList recs) hs, w1) →
   Github.get_all_repos link (Net w tr)
   = (Ret (VList recs), Net w1 (tr ++ [Request link []])))
  ∧ (fetch w (followers_request self) = (Response true (VList recs) hs, w1) →
     Github.get_followers_count (self, Net w tr)
     = (Ret tt, (self, Net w1 (tr ++ [followers_request self])))).
Proof.
  intros Hh Hp. split; intros Hf.
  - unfold Github.get_all_repos, with_local, bind, try_except, lift,
      Github.make_api_call, requests_get, bind; simpl; rewrite Hf; simpl.
    rewrite Hh. unfold lift_res, Github.get_total_pages. rewrite Hp.
    reflexivity.
  - unfold Github.get_followers_count, try_except, bind, lift, get_local,
      Github.make_api_call, requests_get, bind; simpl.
    fold (followers_request self). rewrite Hf; simpl. rewrite Hh.
    destruct hs as [|x hs]; [discriminate|].
    unfold lift_res. rewrite Hp. reflexivity.
Qed.

End HeaderPagination.

Lemma get_all_repos_walks_pages_witness :
  Github.get_all_repos "url" (Net two_numbered_pages [])
  = (Ret (VList ([sample_record] ++ concat [[sample_record; sample_record]])),
     Net [] ([] ++ Request "url" []
                :: (page_request "url" <$> seqZ 2 (2 - 1)))).
Proof.
  apply (get_all_repos_walks_pages two_numbered_pages "url" [sample_record]
           [("link", LINK_HEADER)]
           [Response true (VList [sample_record; sample_record]) []]
           LINK_HEADER 2 [[sample_record; sample_record]] [] []).
  - reflexivity.
  - reflexivity.
  - vm_compute. reflexivity.
  - exact (numbered_next _ "url" 2 0 [sample_record; sample_record] [] []
             [] Complete [] eq_refl (numbered_done [] "url" (2 + 1))).
Defined.

Lemma get_all_repos_single_page_witness :
  Github.get_all_repos "url" (Net [ok (VList [sample_record])] [])
  = (Ret (VList [sample_record]), Net [] ([] ++ [Request "url" []])).
Proof.
  apply (get_all_repos_single_page [ok (VList [sample_record])] "url"
           [sample_record] [] [] []); reflexivity.
Defined.

Lemma link_header_without_link_escapes_witness :
  Github.get_all_repos "url" (Net headless_page [])
  = (Raise IndexError, Net [] ([] ++ [Request "url" []])).
Proof.
  destruct (link_header_without_link_escapes (Github.init "test")
              headless_page "url" [sample_record] [("link", "rel=next")] []
              "rel=next" [] eq_refl eq_refl) as (_ & H & _).
  apply H. reflexivity.
Defined.

Lemma link_header_without_number_is_absorbed_witness :
  Github.get_all_repos "url" (Net unnumbered_page [])
  = (Ret (VList [sample_record]), Net [] ([] ++ [Request "url" []])).
Proof.
  destruct (link_header_without_number_is_absorbed (Github.init "test")
              unnumbered_page "url" [sample_record]
              [("link", "<url?page=last>; rel=x")] []
              "<url?page=last>; rel=x" [] eq_refl) as (H & _).
  - vm_compute. reflexivity.
  - apply H. reflexivity.
Defined.

(** ** The merger: order of the arguments *)

Section MergeOrder.
Import Heap.
Context (σ0 : store).

(** X5.  Swapping two well-formed results that both carry topics changes
    nothing but the topics and the order of the languages: both merges
    have the same followers, watchers and repository counts, the same
    languages, listed once each, and the same language count, and each
    takes its topics from its own second argument. *)
Theorem combine_commutes_by_field b g A B Tb Tg :
  is_aggregate σ0 b A → has_topics σ0 b Tb →
  is_aggregate σ0 g B → has_topics σ0 g Tg →
  ∃ r1 σ1 m1 r2 σ2 m2,
    combine b g σ0 = (Ret r1, σ1) ∧ is_merged σ1 r1 m1
    ∧ combine g b σ0 = (Ret r2, σ2) ∧ is_merged σ2 r2 m2
    ∧ m_followers m1 = m_followers m2
    ∧ m_watchers m1 = m_watchers m2
    ∧ m_forked m1 = m_forked m2
    ∧ m_unforked m1 = m_unforked m2
    ∧ m_count m1 = m_count m2
    ∧ NoDup (m_languages m1)
    ∧ NoDup (m_languages m2)
    ∧ (∀ x, x ∈ m_languages m1 ↔ x ∈ m_languages m2)
    ∧ m_language_count m1 = m_language_count m2
    ∧ m_topics m1 = Tg
    ∧ m_topics m2 = Tb.
Proof.
  intros HA HTb HB HTg.
  destruct (combine_run σ0 b g A B Tg HA HB HTg) as (r1 & σ1 & Hrun1 & Hm1).
  destruct (combine_run σ0 g b B A Tb HB HA HTb) as (r2 & σ2 & Hrun2 & Hm2).
  exists r1, σ1, (expected A B Tg), r2, σ2, (expected B A Tb).
  repeat (split; [first [assumption|reflexivity|simpl; lia]|]).
  assert (Hnodup : ∀ s : gset hashable, NoDup (unhash <$> elements s)).
  { intros s. apply (NoDup_fmap_2 (Inj0 := unhash_inj) unhash), NoDup_elements. }
  assert (Hsame : ∀ x,
    x ∈ unhash <$> elements (a_languages A ∪ a_languages B)
    ↔ x ∈ unhash <$> elements (a_languages B ∪ a_languages A)).
  { intros x. rewrite !list_elem_of_fmap.
    split; intros (h & -> & Hh); exists h; (split; [reflexivity|]);
      apply elem_of_elements; apply elem_of_elements in Hh;
      apply elem_of_union; apply elem_of_union in Hh; tauto. }
  simpl. split; [apply Hnodup|]. split; [apply Hnodup|].
  split; [exact Hsame|].
  split; [|split; reflexivity].
  f_equal. rewrite !length_fmap.
  apply Permutation_length, NoDup_Permutation;
    [apply NoDup_elements|apply NoDup_elements|].
  intros h. rewrite !elem_of_elements, !elem_of_union. tauto.
Qed.

End MergeOrder.

(** ** The merger: a second argument without topics *)

Section MergeWithoutTopics.
Import Heap.
Context (σ0 : store).

Lemma raises_bind {A B} e (m : M store A) (k : A → M store B) σ a σ1 :
  m σ = (Ret a, σ1) → (k a σ1).1 = Raise e → (bind m k σ).1 = Raise e.
Proof. intros Hm Hk. unfold bind. rewrite Hm. exact Hk. Qed.

Lemma raises_first {A B} e (m : M store A) (k : A → M store B) σ :
  (m σ).1 = Raise e → (bind m k σ).1 = Raise e.
Proof.
  intros Hm. unfold bind. destruct (m σ) as [[a|e'|] σ1]; simpl in *;
    congruence.
Qed.

(** X6.  [combine] takes the topics from its second argument only: when
    that argument is a well-formed result without a [topics] field, such as
    the result of the Bitbucket collector, [combine] raises [KeyError]. *)
Theorem combine_needs_topics b g A B :
  is_aggregate σ0 b A →
  is_aggregate σ0 g B →
  lacks_topics σ0 g →
  (combine b g σ0).1 = Raise KeyError.
Proof.
  intros (lb & db & lbl & lbr & dbr & -> & Hb & Hbf & Hbl & Hbls & Hbr & Hbrd
          & Hbfk & Hbuf & Hbw).
  intros (lg & dg & lgl & lgr & dgr & -> & Hg & Hgf & Hgl & Hgls & Hgr & Hgrd
          & Hgfk & Hguf & Hgw).
  intros (lg' & dg' & [= <-] & Hg' & Hgt).
  rewrite Hg in Hg'. injection Hg' as <-.
  destruct (new_results_run σ0) as (l1 & l2 & l3 & res & Hnew & ? & ?).
  destruct_and!. other_way.
  unfold combine. eapply raises_bind; [exact Hnew|]. clear Hnew.
  apply raises_first. unfold fill.
  eapply raises_bind;
    [eapply getitem_run; [eapply (frames_lookup σ0); [frames_now|exact Hb]|exact Hbf]|].
  eapply raises_bind;
    [eapply getitem_run; [eapply (frames_lookup σ0); [frames_now|exact Hg]|exact Hgf]|].
  eapply raises_bind; [reflexivity|].
  eapply raises_bind; [eapply setitem_run; store_lookup|].
  eapply raises_bind; [reflexivity|]. new_location l5. other_way.
  eapply raises_bind;
    [eapply getitem_run; [eapply (frames_lookup σ0); [frames_now|exact Hb]|exact Hbl]|].
  eapply raises_bind;
    [eapply set_update_run; [store_lookup|eapply (frames_lookup σ0); [frames_now|exact Hbls]]|].
  eapply raises_bind;
    [eapply getitem_run; [eapply (frames_lookup σ0); [frames_now|exact Hg]|exact Hgl]|].
  eapply raises_bind;
    [eapply set_update_run; [store_lookup|eapply (frames_lookup σ0); [frames_now|exact Hgls]]|].
  eapply raises_bind; [eapply list_of_run; right; eexists; split; [store_lookup|reflexivity]|].
  new_location l6. other_way.
  eapply raises_bind; [eapply setitem2_run; [store_lookup|dict_lookup|store_lookup]|].
  eapply raises_bind;
    [eapply getitem2_run; [store_lookup|dict_lookup|store_lookup|dict_lookup]|].
  eapply raises_bind; [eapply len_run; left; store_lookup|].
  eapply raises_bind; [eapply setitem2_run; [store_lookup|dict_lookup|store_lookup]|].
  apply raises_first. unfold getitem.
  rewrite (frames_lookup σ0 _ lg (HDict dg)) by first [exact Hg | frames_now].
  rewrite Hgt. reflexivity.
Qed.

End MergeWithoutTopics.

Lemma sample_bitbucket_lacks_topics :
  lacks_topics sample_store (Heap.SRef 1%positive).
Proof. eexists 1%positive, _. repeat split; reflexivity. Qed.

Lemma combine_needs_topics_witness :
  (Heap.combine (Heap.SRef 4%positive) (Heap.SRef 1%positive) sample_store).1
  = Raise KeyError.
Proof.
  apply (combine_needs_topics sample_store _ _ _ _ sample_github_aggregate
           sample_bitbucket_aggregate sample_bitbucket_lacks_topics).
Defined.

Lemma two_github_first :
  is_aggregate two_github_store (Heap.SRef 4%positive)
    (Aggregate 1 {[HStr "javascript"]} 1 1 1)
  ∧ has_topics two_github_store (Heap.SRef 4%positive) [Heap.SStr "flask"].
Proof.
  split.
  - eexists 4%positive, _, 5%positive, 6%positive, _.
    repeat split; reflexivity.
  - eexists 4%positive, _, 7%positive. repeat split; try reflexivity.
    right. exists {[HStr "flask"]}. split; reflexivity.
Qed.

Lemma two_github_second :
  is_aggregate two_github_store (Heap.SRef 8%positive)
    (Aggregate 3 {[HStr "python"]} 1 1 0)
  ∧ has_topics two_github_store (Heap.SRef 8%positive) [Heap.SStr "api"].
Proof.
  split.
  - eexists 8%positive, _, 2%positive, 3%positive, _.
    repeat split; reflexivity.
  - eexists 8%positive, _, 9%positive. repeat split; try reflexivity.
    left. reflexivity.
Qed.

Lemma combine_commutes_by_field_witness :
  ∃ r1 σ1 m1 r2 σ2 m2,
    Heap.combine (Heap.SRef 4%positive) (Heap.SRef 8%positive) two_github_store
    = (Ret r1, σ1) ∧ is_merged σ1 r1 m1
    ∧ Heap.combine (Heap.SRef 8%positive) (Heap.SRef 4%positive) two_github_store
      = (Ret r2, σ2) ∧ is_merged σ2 r2 m2
    ∧ m_followers m1 = m_followers m2
    ∧ m_watchers m1 = m_watchers m2
    ∧ m_forked m1 = m_forked m2
    ∧ m_unforked m1 = m_unforked m2
    ∧ m_count m1 = m_count m2
    ∧ NoDup (m_languages m1)
    ∧ NoDup (m_languages m2)
    ∧ (∀ x, x ∈ m_languages m1 ↔ x ∈ m_languages m2)
    ∧ m_language_count m1 = m_language_count m2
    ∧ m_topics m1 = [Heap.SStr "api"]
    ∧ m_topics m2 = [Heap.SStr "flask"].
Proof.
  apply (combine_commutes_by_field two_github_store _ _ _ _ _ _
           (proj1 two_github_first) (proj2 two_github_first)
           (proj1 two_github_second) (proj2 two_github_second)).
Defined.

(** ** Cursor pagination: the two modes, and a server that goes away *)

Section CursorModes.
Context {W : Type} `{!Transport W}.

Lemma py_len_iter v :
  match py_len v with
  | Ret k => ∃ items, py_iter v = Ret items ∧ k = Z.of_nat (length items)
  | Raise e => py_iter v = Raise e
  | Diverge => False
  end.
Proof.
  destruct v; simpl; try reflexivity; eexists; (split; [reflexivity|]);
    rewrite ?length_fmap; try reflexivity.
  induction s as [|c s IH]; simpl; [reflexivity|]. f_equal. lia.
Qed.

(** Both modes of the loop run in step. *)
Lemma paginate_modes fuel : ∀ link acc (n : net W),
  let p1 := Bitbucket.paginate fuel link true (VList acc, n) in
  let p2 := Bitbucket.paginate fuel link false
              (VInt (Z.of_nat (length acc)), n) in
  p1.1 = p2.1 ∧ p1.2.2 = p2.2.2
  ∧ ∃ acc', p1.2.1 = VList acc' ∧ p2.2.1 = VInt (Z.of_nat (length acc')).
Proof.
  induction fuel as [|fuel IH]; intros link acc n; simpl.
  { repeat split. exists acc. split; reflexivity. }
  unfold bind, lift, lift_res, get_local, set_local; simpl.
  destruct (Bitbucket.make_api_call link n) as [[page|e|] n1]; simpl;
    try (repeat split; exists acc; split; reflexivity).
  unfold Bitbucket.get_result.
  destruct (getitem page "values") as [v|e|] eqn:Hv; simpl;
    try (repeat split; exists acc; split; reflexivity).
  - pose proof (py_len_iter v) as Hlen.
    destruct (py_len v) as [k|e|]; [|simpl; rewrite Hlen|contradiction];
      try (repeat split; exists acc; split; reflexivity).
    destruct Hlen as (items & -> & ->). simpl.
    destruct (py_get page "next") as [next|e|]; simpl;
      try (repeat split; exists (acc ++ items)%list; split;
           [reflexivity|rewrite length_app, Nat2Z.inj_add; reflexivity]).
    rewrite <- Nat2Z.inj_add, <- length_app.
    destruct (truthy next); [apply IH|].
    repeat split. exists (acc ++ items)%list. split; reflexivity.
  - destruct e; simpl;
      try (repeat split; exists acc; split; reflexivity).
    rewrite Z.add_0_r.
    replace (Z.of_nat (length acc)) with (Z.of_nat (length (acc ++ [])%list))
      by (rewrite app_nil_r; reflexivity).
    destruct (py_get page "next") as [next|e|]; simpl;
      try (repeat split; exists (acc ++ [])%list; split; reflexivity).
    destruct (truthy next); [apply IH|].
    repeat split. exists (acc ++ [])%list. split; reflexivity.
Qed.

(** X7.  Whatever the server answers, the count mode of [get_all_results]
    counts what its record mode collects: both make the same requests and
    end the same way, the record mode with a list and the count mode with
    the length of that list. *)
Theorem count_mode_counts_records fuel link (n : net W) :
  match Bitbucket.get_all_results fuel link true n with
  | (Ret (VList records), n1) =>
      Bitbucket.get_all_results fuel link false n
      = (Ret (VInt (Z.of_nat (length records))), n1)
  | (Ret _, _) => False
  | (Raise e, n1) =>
      Bitbucket.get_all_results fuel link false n = (Raise e, n1)
  | (Diverge, n1) =>
      Bitbucket.get_all_results fuel link false n = (Diverge, n1)
  end.
Proof.
  unfold Bitbucket.get_all_results, with_local, bind, try_except, get_local.
  pose proof (paginate_modes fuel link [] n) as (Hr & Hn & acc' & Ha1 & Ha2).
  change (Z.of_nat (length (@nil value))) with 0 in *.
  destruct (Bitbucket.paginate fuel link true (VList [], n))
    as [r1 [a1 n1]].
  destruct (Bitbucket.paginate fuel link false (VInt 0, n))
    as [r2 [a2 n2]].
  simpl in *. subst.
  destruct r2 as [[]|e|]; simpl; try reflexivity.
  destruct (decide (e = ValueError)); reflexivity.
Qed.

Lemma paginate_down pages w u rq w' data :
  serves_until_down w u pages rq w' →
  ∀ fuel acc tr, (length pages < fuel)%nat →
    Bitbucket.paginate fuel (VStr u) data (accumulated data acc, Net w tr)
    = (Raise ConnectionResetError,
       (accumulated data (acc ++ records_of pages),
        Net w' (tr ++ requests_of pages ++ [rq]))).
Proof.
  induction 1 as [w u w' Hf|w u d hs w1 recs u' pages rq w' Hf Hv Hn Hu Hs IH];
    intros fuel acc tr Hfuel;
    (destruct fuel as [|fuel]; [simpl in Hfuel; lia|]).
  - simpl. unfold bind, lift, Bitbucket.make_api_call, requests_get, bind;
      simpl. rewrite Hf. unfold records_of; simpl. rewrite app_nil_r.
    reflexivity.
  - rewrite (paginate_page _ _ _ _ _ _ _ _ _ _ (VStr u') Hf Hv)
      by (rewrite Hn; reflexivity).
    rewrite (truthy_url _ Hu), IH by (simpl in Hfuel; lia).
    unfold records_of, requests_of; simpl.
    rewrite <- !app_assoc. reflexivity.
Qed.

(** X8.  When the server stops answering in the middle of a walk over
    pages, [get_all_results] does not return the pages it already has: it
    raises [ConnectionResetError], and the failed request is its last. *)
Theorem pagination_fails_when_server_is_lost
    w u pages rq w' data fuel tr :
  serves_until_down w u pages rq w' →
  (length pages < fuel)%nat →
  Bitbucket.get_all_results fuel (VStr u) data (Net w tr)
  = (Raise ConnectionResetError,
     Net w' (tr ++ requests_of pages ++ [rq])).
Proof.
  intros Hs Hfuel.
  unfold Bitbucket.get_all_results, with_local, bind, try_except.
  change (if data then VList [] else VInt 0) with (accumulated data []).
  rewrite (paginate_down _ _ _ _ _ data Hs fuel [] tr Hfuel). reflexivity.
Qed.

End CursorModes.

Lemma pagination_fails_when_server_is_lost_witness :
  Bitbucket.get_all_results 3 (VStr "url") true (Net lost_chain [])
  = (Raise ConnectionResetError,
     Net [] ([] ++ requests_of [("url", [sample_record])]
                ++ [Request "url2" []])).
Proof.
  apply (pagination_fails_when_server_is_lost lost_chain "url"
           [("url", [sample_record])] (Request "url2" []) [] true 3 []).
  - eapply down_next; [reflexivity|reflexivity|reflexivity|discriminate|].
    apply down_here. reflexivity.
  - simpl; lia.
Defined.

(** ** Invariants of the collectors *)

Section Safe.
Context {L S : Type} (I : L → Prop) (E : exn → Prop).

Lemma safe_bind {A B} (m : M (L * S) A) (k : A → M (L * S) B) R1 R2 :
  safe I E m R1 → (∀ a, R1 a → safe I E (k a) R2) → safe I E (bind m k) R2.
Proof.
  intros Hm Hk s Hs. unfold bind. specialize (Hm s Hs).
  destruct (m s) as [[a|e|] s']; [|exact Hm..].
  destruct Hm as [Hs' Ha]. apply (Hk a Ha s' Hs').
Qed.

Lemma safe_ret {A} (a : A) (R : A → Prop) :
  R a → safe (S := S) I E (ret a) R.
Proof. intros Ha s Hs. split; assumption. Qed.

Lemma safe_get : safe I E (@get_local L S) I.
Proof. intros s Hs. split; assumption. Qed.

Lemma safe_set l (R : unit → Prop) : I l → R tt → safe I E (@set_local L S l) R.
Proof. intros Hl HR s Hs. split; assumption. Qed.

Lemma safe_lift_res {A} (r : res A) R :
  gives E r R → safe (S := S) I E (lift_res r) R.
Proof.
  intros Hr s Hs. unfold lift_res. destruct r; simpl in *; tauto.
Qed.

Lemma safe_lift {A} (m : M S A) R : yields E m R → safe I E (lift m) R.
Proof.
  intros Hm [l s] Hs. unfold lift. simpl. specialize (Hm s).
  destruct (m s) as [[a|e|] s']; simpl in *; tauto.
Qed.

Lemma safe_weaken {A} (m : M (L * S) A) (R R' : A → Prop) :
  safe I E m R → (∀ a, R a → R' a) → safe I E m R'.
Proof.
  intros Hm HR s Hs. specialize (Hm s Hs).
  destruct (m s) as [[a|e|] s']; [|exact Hm..].
  destruct Hm. split; auto.
Qed.

Lemma safe_for_each {A} (xs : list A) (body : A → M (L * S) unit) :
  (∀ x, safe I E (body x) (λ _, True)) →
  safe I E (for_each xs body) (λ _, True).
Proof.
  intros Hb. induction xs as [|x xs IH]; simpl.
  - apply safe_ret. exact Logic.I.
  - eapply safe_bind; [apply Hb|intros _ _; exact IH].
Qed.

End Safe.

Lemma safe_try {L S A} (I : L → Prop) (E E' : exn → Prop) e
    (m h : M (L * S) A) R :
  safe I E' m R → safe I E h R → (∀ e', E' e' → e' = e ∨ E e') →
  safe I E (try_except m e h) R.
Proof.
  intros Hm Hh HE s Hs. unfold try_except. specialize (Hm s Hs).
  destruct (m s) as [[a|e'|] s']; [exact Hm| |exact Hm].
  destruct Hm as [Hs' He]. destruct (decide (e' = e)) as [->|Hne].
  - apply (Hh s' Hs').
  - split; [exact Hs'|]. destruct (HE e' He); [contradiction|assumption].
Qed.

(** *** What the pure operations can raise *)

Ltac gives_pure f :=
  unfold f, gives, not_value_error; simpl;
  repeat match goal with
         | |- context [match ?x with _ => _ end] =>
             lazymatch x with
             | context [match _ with _ => _ end] => fail
             | _ => destruct x; simpl
             end
         end;
  first [exact Logic.I | discriminate].

Lemma gives_getitem v k : gives not_value_error (getitem v k) (λ _, True).
Proof. gives_pure getitem. Qed.

Lemma gives_py_get v k : gives not_value_error (py_get v k) (λ _, True).
Proof. gives_pure py_get. Qed.

Lemma gives_py_iter v : gives not_value_error (py_iter v) (λ _, True).
Proof. gives_pure py_iter. Qed.

Lemma gives_hash_key v : gives not_value_error (hash_key v) (λ _, True).
Proof. gives_pure hash_key. Qed.

Lemma gives_py_split v : gives not_value_error (Bitbucket.py_split v) (λ _, True).
Proof. gives_pure Bitbucket.py_split. Qed.

Section BitbucketSafe.
Context {W : Type} `{!Transport W}.

Lemma yields_get_all_results fuel link data :
  yields not_value_error (Bitbucket.get_all_results fuel link data)
    (λ v, if data then ∃ l, v = VList l else ∃ k, v = VInt (Z.of_nat k)).
Proof.
  intros n.
  pose proof (paginate_modes fuel link [] n) as (Hr & Hn & acc' & Ha1 & Ha2).
  change (Z.of_nat (length (@nil value))) with 0 in *.
  unfold Bitbucket.get_all_results, with_local, bind, try_except, get_local.
  destruct data.
  - destruct (Bitbucket.paginate fuel link true (VList [], n))
      as [[[]|e|] [a1 n1]]; simpl in *; subst; eauto.
    destruct (decide (e = ValueError)); simpl; eauto.
  - destruct (Bitbucket.paginate fuel link false (VInt 0, n))
      as [[[]|e|] [a1 n1]]; simpl in *; subst; eauto.
    destruct (decide (e = ValueError)); simpl; eauto.
Qed.

Lemma yields_bitbucket_call url :
  yields (λ _, True) (Bitbucket.make_api_call (W := W) url) (λ _, True).
Proof.
  intros n. destruct ((Bitbucket.make_api_call url n).1); exact Logic.I.
Qed.

Abbreviation safe_b := (safe (S := net W) bitbucket_invariant not_value_error).

Lemma safe_get_followers_count fuel :
  safe_b (Bitbucket.get_followers_count fuel) (λ _, True).
Proof.
  unfold Bitbucket.get_followers_count.
  eapply safe_bind; [apply safe_get|intros self0 _].
  eapply safe_bind; [apply safe_lift, yields_get_all_results|].
  intros results [k ->].
  eapply safe_bind; [apply safe_get|intros self Hself].
  simpl. unfold lift_res, bind. intros s Hs. simpl.
  split; [|exact Logic.I]. destruct Hself as (? & ? & ? & ? & ?).
  repeat split; simpl; try assumption. lia.
Qed.

Lemma safe_update_watchers_count fuel repo :
  safe_b (Bitbucket.update_watchers_count fuel repo) (λ _, True).
Proof.
  unfold Bitbucket.update_watchers_count.
  eapply safe_bind; [apply safe_lift_res, gives_py_split|intros parts _].
  eapply safe_bind; [apply safe_get|intros self0 _].
  eapply safe_bind; [apply safe_lift, yields_get_all_results|].
  intros results [k ->].
  eapply safe_bind; [apply safe_get|intros self Hself].
  simpl. unfold lift_res, bind. intros s Hs. simpl.
  split; [|exact Logic.I]. destruct Hself as (? & ? & ? & ? & ?).
  repeat split; simpl; try assumption. lia.
Qed.

Lemma safe_update_languages language :
  safe_b (Bitbucket.update_languages language) (λ _, True).
Proof.
  unfold Bitbucket.update_languages.
  eapply safe_bind; [apply safe_lift_res, gives_hash_key|intros h _].
  eapply safe_bind; [apply safe_get|intros self Hself].
  apply safe_set; [exact Hself|exact Logic.I].
Qed.

Lemma bitbucket_invariant_incr self :
  bitbucket_invariant self →
  bitbucket_invariant (Bitbucket.incr_forked self)
  ∧ bitbucket_invariant (Bitbucket.incr_unforked self).
Proof.
  intros (? & ? & ? & ? & ?). repeat split; simpl; try assumption; lia.
Qed.

Lemma safe_update_repo_count link :
  safe_b (Bitbucket.update_repo_count link) (λ _, True).
Proof.
  unfold Bitbucket.update_repo_count.
  apply (safe_try _ _ (λ _, True)).
  - eapply safe_bind; [apply safe_lift, yields_bitbucket_call|intros fork _].
    eapply safe_bind.
    { apply safe_lift_res with (R := λ _, True).
      unfold gives. destruct (getitem fork "values"); exact Logic.I. }
    intros v _.
    eapply safe_bind; [apply safe_get|intros self Hself].
    destruct (bitbucket_invariant_incr self Hself).
    destruct (truthy v); apply safe_set; auto.
  - eapply safe_bind; [apply safe_get|intros self Hself].
    destruct (bitbucket_invariant_incr self Hself).
    apply safe_set; auto.
  - intros e' _. destruct (decide (e' = ValueError)); [left|right]; assumption.
Qed.

Lemma safe_process_repo fuel repo :
  safe_b (Bitbucket.process_repo fuel repo) (λ _, True).
Proof.
  unfold Bitbucket.process_repo.
  eapply safe_bind; [apply safe_lift_res, gives_getitem|intros language _].
  eapply safe_bind; [apply safe_update_languages|intros _ _].
  eapply safe_bind; [apply safe_lift_res, gives_getitem|intros links _].
  eapply safe_bind; [apply safe_lift_res, gives_getitem|intros forks _].
  eapply safe_bind; [apply safe_lift_res, gives_getitem|intros href _].
  eapply safe_bind; [apply safe_update_repo_count|intros _ _].
  eapply safe_bind; [apply safe_lift_res, gives_getitem|intros name _].
  apply safe_update_watchers_count.
Qed.

Lemma safe_process_repos fuel :
  safe_b (Bitbucket.process_repos fuel) (λ _, True).
Proof.
  unfold Bitbucket.process_repos.
  eapply safe_bind; [apply safe_get|intros self0 _].
  eapply safe_bind; [apply safe_lift, yields_get_all_results|intros repos _].
  eapply safe_bind; [apply safe_lift_res, gives_py_iter|intros items _].
  eapply safe_bind;
    [apply safe_for_each; intros x; apply safe_process_repo|intros _ _].
  apply safe_get_followers_count.
Qed.

(** X9.  Whatever the server answers, [make_response] of the Bitbucket
    collector raises neither [ValueError] nor [ConnectionResetError], and
    when it returns, the result is a dict of exactly the four fields
    [followers], [languages], [repos] and [watchers], with counts that are
    not negative. *)
Theorem bitbucket_result_shape fuel org (w : W) :
  match (Bitbucket.run fuel org w).1 with
  | Ret r =>
      ∃ f langs fk uf wt,
        r = VDict [("followers", VInt f);
                   ("languages", VSet langs);
                   ("repos", VDict [("forked", VInt fk); ("unforked", VInt uf)]);
                   ("watchers", VInt wt)]
        ∧ (0 ≤ f)%Z ∧ (0 ≤ fk)%Z ∧ (0 ≤ uf)%Z ∧ (0 ≤ wt)%Z
  | Raise e => e ≠ ValueError ∧ e ≠ ConnectionResetError
  | Diverge => True
  end.
Proof.
  assert (Htry : safe (S := net W) bitbucket_invariant not_transport_error
                   (try_except (Bitbucket.process_repos fuel)
                      ConnectionResetError (ret tt)) (λ _, True)).
  { eapply safe_try; [apply safe_process_repos|apply safe_ret; exact Logic.I|].
    intros e' He'. destruct (decide (e' = ConnectionResetError));
      [left; assumption|right; split; assumption]. }
  unfold Bitbucket.run, Bitbucket.make_response, bind.
  specialize (Htry (Bitbucket.init org, Net w [])).
  destruct (try_except (Bitbucket.process_repos fuel) ConnectionResetError
              (ret tt) (Bitbucket.init org, Net w [])) as [[[]|e|] [self n]];
    simpl in *.
  - destruct Htry as [(Hf & Hw & Hfk & Huf & Hres) _];
      [repeat split; simpl; lia|].
    unfold Bitbucket.finalize. simpl. rewrite Hres. simpl.
    eexists _, _, _, _, _. split; [reflexivity|]. repeat split; assumption.
  - apply Htry. repeat split; simpl; lia.
  - exact Logic.I.
Qed.

End BitbucketSafe.

Lemma lower_char_idem c : lower_char (lower_char c) = lower_char c.
Proof. destruct c as [[] [] [] [] [] [] [] []]; reflexivity. Qed.

Lemma lower_idem s : lower (lower s) = lower s.
Proof.
  induction s as [|c s IH]; [reflexivity|]. simpl.
  rewrite lower_char_idem, IH. reflexivity.
Qed.

Lemma set_update_lowercase items : ∀ langs,
  (∀ x, x ∈ items → ∃ s, x = VStr (lower s)) →
  (∀ h, h ∈ langs → lowercase h) →
  ∃ langs', set_update langs items = (Ret tt, langs')
            ∧ ∀ h, h ∈ langs' → lowercase h.
Proof.
  induction items as [|x items IH]; intros langs Hitems Hlangs; simpl.
  - exists langs. split; [reflexivity|exact Hlangs].
  - destruct (Hitems x) as [s ->]; [left|]. simpl.
    apply IH.
    + intros y Hy. apply Hitems. right. exact Hy.
    + intros h Hh. apply elem_of_union in Hh as [Hh|Hh]; [apply Hlangs, Hh|].
      apply elem_of_singleton in Hh as ->. exists (lower s).
      split; [reflexivity|apply lower_idem].
Qed.

Lemma gives_set_update items : ∀ s,
  gives not_value_error (set_update s items).1 (λ _, True).
Proof.
  induction items as [|x items IH]; intros s; simpl; [exact Logic.I|].
  destruct x; simpl; try apply IH; discriminate.
Qed.

Lemma gives_add_count n v : gives not_value_error (Github.add_count n v) (λ _, True).
Proof. gives_pure Github.add_count. Qed.

Lemma gives_lower_keys v :
  gives (λ _, True) (Github.lower_keys v)
    (λ langs, ∀ x, x ∈ langs → ∃ s, x = VStr (lower s)).
Proof.
  destruct v; simpl; try exact Logic.I.
  intros x Hx. apply list_elem_of_fmap in Hx as ([k v] & -> & _). eauto.
Qed.

Lemma unhash_value_inj : Inj (=) (=) unhash.
Proof. intros [] [] H; simplify_eq; reflexivity. Qed.

(** A block that catches [ValueError] around all it does raises none. *)
Lemma yields_try_local {L S} (l0 : L) (m : M (L * S) unit) :
  yields not_value_error
    (with_local l0 (try_except m ValueError (ret tt) ;;; get_local))
    (λ _, True).
Proof.
  intros s. unfold with_local, bind, try_except.
  destruct (m (l0, s)) as [[[]|e|] [a s1]]; simpl; try exact Logic.I.
  destruct (decide (e = ValueError)); simpl; [exact Logic.I|assumption].
Qed.

Section GithubSafe.
Context {W : Type} `{!Transport W}.
Context (repr : value → string).

Abbreviation safe_g := (safe (S := net W) github_invariant not_value_error).

Lemma yields_get_all_repos link :
  yields not_value_error (Github.get_all_repos (W := W) link) (λ _, True).
Proof.
  unfold Github.get_all_repos. apply yields_try_local.
Qed.

Lemma yields_github_call url headers :
  yields (λ _, True) (Github.make_api_call (W := W) url headers) (λ _, True).
Proof.
  intros n. destruct ((Github.make_api_call url headers n).1); exact Logic.I.
Qed.

Lemma github_invariant_followers self n :
  github_invariant self → github_invariant (Github.set_followers n self).
Proof. intros H. exact H. Qed.

Lemma safe_github_followers :
  safe_g Github.get_followers_count (λ _, True).
Proof.
  unfold Github.get_followers_count.
  apply (safe_try _ _ (λ _, True));
    [|apply safe_ret; exact Logic.I
     |intros e' _; destruct (decide (e' = ValueError)); [left|right]; assumption].
  eapply safe_bind; [apply safe_get|intros self0 _].
  eapply safe_bind; [apply safe_lift, yields_github_call|intros data _].
  assert (Hlen : safe (S := net W) github_invariant (λ _, True)
            (let* n := lift_res (py_len (Github.data_results data)) in
             let* self := get_local in
             set_local (Github.set_followers (Github.followers self + n) self))
            (λ _, True)).
  { eapply safe_bind.
    { apply safe_lift_res with (R := λ _, True).
      destruct (py_len _); exact Logic.I. }
    intros n _. eapply safe_bind; [apply safe_get|intros self Hself].
    apply safe_set; [exact Hself|exact Logic.I]. }
  destruct (Github.data_headers data) as [|x hs]; [exact Hlen|].
  destruct (Github.link_header (x :: hs)); [|exact Hlen].
  eapply safe_bind.
  { apply safe_lift_res with (R := λ _, True).
    destruct (parse_last_page _); exact Logic.I. }
  intros n _. eapply safe_bind; [apply safe_get|intros self Hself].
  apply safe_set; [exact Hself|exact Logic.I].
Qed.

Lemma safe_github_languages repo :
  safe_g (Github.update_languages repr repo) (λ _, True).
Proof.
  unfold Github.update_languages.
  apply (safe_try _ _ (λ _, True));
    [|apply safe_ret; exact Logic.I
     |intros e' _; destruct (decide (e' = ValueError)); [left|right]; assumption].
  eapply safe_bind; [apply safe_get|intros self0 _].
  eapply safe_bind; [apply safe_lift, yields_github_call|intros data _].
  eapply safe_bind; [apply safe_lift_res, gives_lower_keys|intros langs Hlangs].
  eapply safe_bind; [apply safe_get|intros self Hself].
  destruct Hself as (Hfk & Huf & Hres & Hlow).
  destruct (set_update_lowercase langs (Github.languages self) Hlangs Hlow)
    as (langs' & -> & Hlow').
  eapply (safe_bind _ _ _ _ (λ _, True));
    [|intros _ _; apply safe_lift_res; exact Logic.I].
  apply safe_set; [|exact Logic.I]. repeat split; assumption.
Qed.

Lemma safe_github_repo_count forked :
  safe_g (Github.update_repo_count forked) (λ _, True).
Proof.
  unfold Github.update_repo_count.
  eapply safe_bind; [apply safe_get|intros self (Hfk & Huf & Hres & Hlow)].
  destruct (truthy forked); (apply safe_set; [|exact Logic.I]);
    repeat split; simpl; try assumption; lia.
Qed.

Lemma safe_github_topics topics :
  safe_g (Github.update_topics topics) (λ _, True).
Proof.
  unfold Github.update_topics.
  destruct (truthy topics); [|apply safe_ret; exact Logic.I].
  eapply safe_bind; [apply safe_lift_res, gives_py_iter|intros items _].
  eapply safe_bind; [apply safe_get|intros self Hself].
  pose proof (gives_set_update items (Github.topics self)) as Hr.
  destruct (set_update (Github.topics self) items) as [r s].
  eapply (safe_bind _ _ _ _ (λ _, True));
    [apply safe_set; [exact Hself|exact Logic.I]|intros _ _].
  apply safe_lift_res, Hr.
Qed.

Lemma safe_github_watchers watchers :
  safe_g (Github.update_watchers_count watchers) (λ _, True).
Proof.
  unfold Github.update_watchers_count.
  eapply safe_bind; [apply safe_get|intros self Hself].
  eapply safe_bind; [apply safe_lift_res, gives_add_count|intros n _].
  apply safe_set; [exact Hself|exact Logic.I].
Qed.

Lemma safe_github_process_repos :
  safe_g (Github.process_repos repr) (λ _, True).
Proof.
  unfold Github.process_repos.
  eapply safe_bind; [apply safe_get|intros self0 _].
  eapply safe_bind; [apply safe_lift, yields_get_all_repos|intros repos _].
  eapply safe_bind; [apply safe_lift_res, gives_py_iter|intros items _].
  eapply safe_bind; [|intros _ _; apply safe_github_followers].
  apply safe_for_each. intros repo. unfold Github.process_repo.
  eapply safe_bind; [apply safe_lift_res, gives_getitem|intros name _].
  eapply safe_bind; [apply safe_github_languages|intros _ _].
  eapply safe_bind; [apply safe_lift_res, gives_getitem|intros fork _].
  eapply safe_bind; [apply safe_github_repo_count|intros _ _].
  eapply safe_bind; [apply safe_lift_res, gives_py_get|intros topics _].
  eapply safe_bind; [apply safe_github_topics|intros _ _].
  eapply safe_bind; [apply safe_lift_res, gives_getitem|intros watchers _].
  apply safe_github_watchers.
Qed.

(** X10.  Whatever the server answers, [make_response] of the Github
    collector raises neither [ValueError] nor [ConnectionResetError], and
    when it returns, the result is a dict of exactly the five fields
    [followers], [languages], [repos], [topics] and [watchers]; the
    repository counts are not negative, every language is a string in lower
    case, and the topic list has no repetition. *)
Theorem github_result_shape org (w : W) :
  match (Github.run repr org w).1 with
  | Ret r =>
      ∃ f langs fk uf ts wt,
        r = VDict [("followers", VInt f);
                   ("languages", VSet langs);
                   ("repos", VDict [("forked", VInt fk); ("unforked", VInt uf)]);
                   ("topics", VList ts);
                   ("watchers", VInt wt)]
        ∧ (0 ≤ fk)%Z ∧ (0 ≤ uf)%Z
        ∧ (∀ h, h ∈ langs → lowercase h)
        ∧ NoDup ts
  | Raise e => e ≠ ValueError ∧ e ≠ ConnectionResetError
  | Diverge => True
  end.
Proof.
  assert (Htry : safe (S := net W) github_invariant not_transport_error
                   (try_except (Github.process_repos repr)
                      ConnectionResetError (ret tt)) (λ _, True)).
  { eapply safe_try;
      [apply safe_github_process_repos|apply safe_ret; exact Logic.I|].
    intros e' He'. destruct (decide (e' = ConnectionResetError));
      [left; assumption|right; split; assumption]. }
  assert (Hinit : github_invariant (Github.init org)).
  { repeat split; simpl; try lia. intros h Hh. set_solver. }
  unfold Github.run, Github.make_response, bind.
  specialize (Htry (Github.init org, Net w []) Hinit).
  destruct (try_except (Github.process_repos repr) ConnectionResetError
              (ret tt) (Github.init org, Net w [])) as [[[]|e|] [self n]];
    simpl in *.
  - destruct Htry as [(Hfk & Huf & Hres & Hlow) _].
    unfold Github.finalize. simpl. rewrite Hres. simpl.
    eexists _, _, _, _, _, _. split; [reflexivity|].
    repeat split; try assumption.
    apply (NoDup_fmap_2 (Inj0 := unhash_value_inj) unhash), NoDup_elements.
  - apply Htry.
  - exact Logic.I.
Qed.

End GithubSafe.

(** ** Names with blanks *)

Lemma has_space_app s t : has_space (s +:+ t) = has_space s || has_space t.
Proof.
  induction s as [|c s IH]; [reflexivity|]. rewrite app_cons. simpl.
  rewrite IH, orb_assoc. reflexivity.
Qed.

Lemma has_space_rev_app s : ∀ t,
  has_space (String.rev_app s t) = has_space s || has_space t.
Proof.
  induction s as [|c s IH]; intros t; [reflexivity|]. simpl.
  rewrite IH. simpl. destruct (py_isspace c), (has_space s); reflexivity.
Qed.

Lemma rev_app_rev_app s : ∀ t u,
  String.rev_app (String.rev_app s t) u = String.rev_app t (s +:+ u).
Proof.
  induction s as [|c s IH]; intros t u; [reflexivity|]. simpl.
  rewrite IH. reflexivity.
Qed.

Lemma rev_rev s : String.rev (String.rev s) = s.
Proof.
  unfold String.rev. rewrite rev_app_rev_app. simpl. apply app_empty_r.
Qed.

Lemma split_ws_go_words s : ∀ cur,
  has_space cur = false →
  Forall (λ w, has_space w = false) (split_ws_go cur s).
Proof.
  assert (Hcur : ∀ cur, has_space cur = false →
            Forall (λ w, has_space w = false)
              (if String.eqb cur "" then [] else [String.rev cur])).
  { intros cur Hc. destruct (String.eqb cur ""); constructor; [|constructor].
    unfold String.rev. rewrite has_space_rev_app, Hc. reflexivity. }
  induction s as [|c s IH]; intros cur Hc; simpl; [apply Hcur, Hc|].
  destruct (py_isspace c) eqn:Hsp.
  - apply Forall_app. split; [apply Hcur, Hc|apply IH; reflexivity].
  - apply IH. simpl. rewrite Hsp, Hc. reflexivity.
Qed.

Lemma join_no_space ws :
  Forall (λ w, has_space w = false) ws → has_space (join "-" ws) = false.
Proof.
  induction 1 as [|w ws Hw Hws IH]; [reflexivity|].
  destruct ws as [|w' ws]; [exact Hw|].
  change (join "-" (w :: w' :: ws)) with (w +:+ "-" +:+ join "-" (w' :: ws)).
  rewrite !has_space_app, Hw, IH. reflexivity.
Qed.

Lemma split_ws_go_no_space s : ∀ cur,
  has_space s = false →
  split_ws_go cur s
  = if String.eqb (String.rev_app s cur) "" then []
    else [String.rev (String.rev_app s cur)].
Proof.
  induction s as [|c s IH]; intros cur Hs; [reflexivity|].
  simpl in Hs. apply orb_false_iff in Hs as [Hc Hs].
  simpl. rewrite Hc. apply IH, Hs.
Qed.

Lemma hyphenated_name s :
  has_space (join "-" (split_ws s)) = false
  ∧ (has_space s = false → s ≠ "" → join "-" (split_ws s) = s).
Proof.
  split.
  - apply join_no_space, split_ws_go_words. reflexivity.
  - intros Hs Hne. unfold split_ws. rewrite (split_ws_go_no_space _ _ Hs).
    fold (String.rev s). rewrite rev_rev.
    destruct (String.eqb_spec (String.rev s) "") as [He|_]; [|reflexivity].
    exfalso. apply Hne. rewrite <- (rev_rev s), He. reflexivity.
Qed.

Section WatchersRequest.
Context {W : Type} `{!Transport W}.

Lemma bitbucket_call_trace url (n : net W) :
  ∃ rest, trace (Bitbucket.make_api_call url n).2 = (trace n ++ rest)%list
          ∧ ∀ u, url = VStr u → rest = [Request u []].
Proof.
  destruct url; simpl;
    try (exists []; split; [rewrite app_nil_r; reflexivity|discriminate]).
  exists [Request s []]. split; [|intros u [= ->]; reflexivity].
  unfold bind, requests_get.
  destruct (fetch (world n) (Request s [])) as [[[] body hs|] w']; reflexivity.
Qed.

Lemma paginate_trace fuel : ∀ link data acc (n : net W),
  ∃ rest, trace (Bitbucket.paginate fuel link data (acc, n)).2.2
          = (trace n ++ rest)%list
          ∧ ∀ u f, link = VStr u → fuel = S f → ∃ more, rest = Request u [] :: more.
Proof.
  induction fuel as [|fuel IH]; intros link data acc n.
  { exists []. split; [simpl; rewrite app_nil_r; reflexivity|discriminate]. }
  destruct (bitbucket_call_trace link n) as (r1 & Hr1 & Hfirst).
  assert (Hdone : ∀ more, ∃ rest, (trace n ++ r1 ++ more = trace n ++ rest)%list
            ∧ ∀ u f, link = VStr u → S fuel = S f →
                     ∃ more', rest = Request u [] :: more').
  { intros more. exists (r1 ++ more)%list. split; [reflexivity|].
    intros u f Hu _. rewrite (Hfirst u Hu). eexists. reflexivity. }
  simpl. unfold bind, lift, lift_res, get_local, set_local. simpl.
  destruct (Bitbucket.make_api_call link n) as [[page|e|] n1]; simpl in *;
    rewrite ?Hr1;
    try (destruct (Hdone []) as (rest & Heq & Hrest); exists rest;
         rewrite <- Heq, app_nil_r; split; [reflexivity|exact Hrest]).
  repeat match goal with
         | |- context [match ?x with _ => _ end] =>
             lazymatch x with
             | context [match _ with _ => _ end] => fail
             | Bitbucket.paginate _ _ _ _ => fail
             | _ => destruct x; simpl
             end
         end;
    rewrite ?Hr1;
    try (destruct (Hdone []) as (rest & Heq & Hrest); exists rest;
         rewrite <- Heq, app_nil_r; split; [reflexivity|exact Hrest]).
  all: match goal with
       | |- context [Bitbucket.paginate _ ?l ?d (?a, ?m)] =>
           destruct (IH l d a m) as (more & Hmore & _);
           destruct (Hdone more) as (rest & Heq & Hrest); exists rest;
           rewrite <- Heq, app_assoc, <- Hr1; split; [exact Hmore|exact Hrest]
       end.
Qed.

Lemma get_all_results_trace fuel u data (n : net W) :
  ∃ more, trace (Bitbucket.get_all_results (S fuel) (VStr u) data n).2
          = (trace n ++ Request u [] :: more)%list.
Proof.
  unfold Bitbucket.get_all_results, with_local, bind, try_except, get_local, ret.
  destruct (paginate_trace (S fuel) (VStr u) data
              (if data then VList [] else VInt 0) n) as (rest & Hrest & Hfirst).
  destruct (Hfirst u fuel eq_refl eq_refl) as (more & ->).
  exists more. rewrite <- Hrest.
  destruct (Bitbucket.paginate (S fuel) (VStr u) data
              (if data then VList [] else VInt 0, n)) as [[[]|e|] [acc n1]];
    simpl; try reflexivity.
  destruct (decide (e = ValueError)); reflexivity.
Qed.

(** X11.  [update_watchers_count] asks for the watchers of a repository
    under the words of its name joined by hyphens: the first request it
    sends is for [<url>/repositories/<org>/<name>/watchers?pagelen=100],
    where that name has no blank in it, and is the repository name itself
    when this one has no blank and is not empty. *)
Theorem repository_name_without_blanks fuel s self (n : net W) :
  let name := join "-" (split_ws s) in
  has_space name = false
  ∧ (has_space s = false → s ≠ "" → name = s)
  ∧ ∃ more,
      trace (Bitbucket.update_watchers_count (S fuel) (VStr s) (self, n)).2.2
      = (trace n
         ++ Request (Bitbucket.url self +:+ "/repositories/"
                       +:+ Bitbucket.org self +:+ "/" +:+ name
                       +:+ "/watchers?pagelen=100") [] :: more)%list.
Proof.
  intros name. destruct (hyphenated_name s) as [Hblank Hsame].
  split; [exact Hblank|]. split; [exact Hsame|].
  unfold Bitbucket.update_watchers_count, Bitbucket.py_split.
  unfold bind, lift, lift_res, get_local, set_local. simpl.
  fold name.
  destruct (get_all_results_trace fuel
              (Bitbucket.url self +:+ "/repositories/"
                 +:+ Bitbucket.org self +:+ "/" +:+ name
                 +:+ "/watchers?pagelen=100") false n) as (more & Hmore).
  exists more. rewrite <- Hmore.
  destruct (Bitbucket.get_all_results _ _ _ n) as [[v|e|] n1]; simpl;
    try reflexivity.
  destruct (Bitbucket.add_count (Bitbucket.watchers self) v); reflexivity.
Qed.

End WatchersRequest.

Lemma repository_name_without_blanks_witness :
  has_space "test_repo" = false ∧ "test_repo" ≠ ""
  ∧ join "-" (split_ws "test_repo") = "test_repo".
Proof.
  split; [reflexivity|]. split; [discriminate|].
  apply (repository_name_without_blanks (W := list response) 1 "test_repo"
           (Bitbucket.init "pygame") (Net [] [])); [reflexivity|discriminate].
Defined.


(** ** The repository counters *)

Ltac run_all :=
  unfold try_except, bind, lift, lift_res, get_local, set_local, ret, raise;
  simpl;
  repeat match goal with
         | |- context [match ?x with _ => _ end] =>
             lazymatch x with
             | context [match _ with _ => _ end] => fail
             | _ => destruct x; simpl
             end
         end.

Lemma count_where_nonneg p items : (0 ≤ count_where p items)%Z.
Proof. induction items as [|x xs IH]; simpl; [lia|destruct (p x); lia]. Qed.

Section GithubCount.
Context {W : Type} `{!Transport W}.
Context (repr : value → string).

Lemma github_languages_repos repo (s : Github.t * net W) :
  Github.repos (Github.update_languages repr repo s).2.1 = Github.repos s.1.
Proof.
  destruct s as [self n]. unfold Github.update_languages. run_all; reflexivity.
Qed.

Lemma github_topics_repos topics (s : Github.t * net W) :
  Github.repos (Github.update_topics topics s).2.1 = Github.repos s.1.
Proof.
  destruct s as [self n]. unfold Github.update_topics. run_all; reflexivity.
Qed.

Lemma github_watchers_repos watchers (s : Github.t * net W) :
  Github.repos (Github.update_watchers_count watchers s).2.1 = Github.repos s.1.
Proof.
  destruct s as [self n]. unfold Github.update_watchers_count.
  run_all; reflexivity.
Qed.

Lemma github_repo_count_bumps fork (s : Github.t * net W) :
  let r := Github.update_repo_count fork s in
  r.1 = Ret tt
  ∧ Github.forked (Github.repos r.2.1)
    = (Github.forked (Github.repos s.1) + (if truthy fork then 1 else 0))%Z
  ∧ Github.unforked (Github.repos r.2.1)
    = (Github.unforked (Github.repos s.1) + (if truthy fork then 0 else 1))%Z.
Proof.
  destruct s as [self n]. unfold Github.update_repo_count.
  unfold bind, get_local, set_local. simpl.
  destruct (truthy fork); simpl.
  all: repeat split; simpl; lia.
Qed.

Lemma github_process_repo_counts repo (s : Github.t * net W) r s' :
  Github.process_repo repr repo s = (r, s') →
  let f := Github.forked (Github.repos s.1) in
  let u := Github.unforked (Github.repos s.1) in
  let f' := Github.forked (Github.repos s'.1) in
  let u' := Github.unforked (Github.repos s'.1) in
  let counted :=
    f' = (f + (if is_fork repo then 1 else 0))%Z
    ∧ u' = (u + (if is_fork repo then 0 else 1))%Z in
  match r with
  | Ret _ => counted
  | _ => (f' = f ∧ u' = u) ∨ counted
  end.
Proof.
  unfold Github.process_repo, is_fork, bind, lift_res.
  destruct (getitem repo "name") as [name|e|];
    try (intros [= <- <-]; left; split; reflexivity).
  pose proof (github_languages_repos name s) as H1.
  destruct (Github.update_languages repr name s) as [[[]|e|] s1];
    simpl in H1; rewrite <- H1;
    try (intros [= <- <-]; left; split; reflexivity).
  destruct (getitem repo "fork") as [fork|e|];
    try (intros [= <- <-]; left; split; reflexivity).
  destruct (github_repo_count_bumps fork s1) as (H2 & Hf & Hu).
  destruct (Github.update_repo_count fork s1) as [r2 s2];
    simpl in H2, Hf, Hu; subst r2.
  assert (Hcounted :
    Github.forked (Github.repos s2.1)
    = (Github.forked (Github.repos s1.1) + (if truthy fork then 1 else 0))%Z
    ∧ Github.unforked (Github.repos s2.1)
      = (Github.unforked (Github.repos s1.1) + (if truthy fork then 0 else 1))%Z)
    by (split; assumption).
  clear Hf Hu. revert Hcounted.
  generalize (Github.repos s1.1). intros r0 Hcounted.
  destruct (py_get repo "topics") as [topics|e|];
    try (intros [= <- <-]; right; exact Hcounted).
  pose proof (github_topics_repos topics s2) as H3.
  destruct (Github.update_topics topics s2) as [[[]|e|] s3];
    simpl in H3; rewrite <- H3 in Hcounted;
    try (intros [= <- <-]; right; exact Hcounted).
  destruct (getitem repo "watchers") as [watchers|e|];
    try (intros [= <- <-]; right; exact Hcounted).
  pose proof (github_watchers_repos watchers s3) as H4.
  destruct (Github.update_watchers_count watchers s3) as [[[]|e|] s4];
    simpl in H4; rewrite <- H4 in Hcounted;
    intros [= <- <-]; first [exact Hcounted|right; exact Hcounted].
Qed.

(** X12.  The loop of the Github [process_repos] counts each repository
    once, as forked when its [fork] field is true and as unforked
    otherwise: when the loop completes, [forked] has grown by the number
    of forks in the listing and [unforked] by the number of the others;
    when it is cut short by an exception, neither counter has gone down
    nor grown by more than that. *)
Theorem github_counts_each_repository items : ∀ s : Github.t * net W,
  let r := for_each items (Github.process_repo repr) s in
  let f := Github.forked (Github.repos s.1) in
  let u := Github.unforked (Github.repos s.1) in
  let f' := Github.forked (Github.repos r.2.1) in
  let u' := Github.unforked (Github.repos r.2.1) in
  let forks := count_where is_fork items in
  let others := count_where (λ repo, negb (is_fork repo)) items in
  (f ≤ f' ≤ f + forks)%Z ∧ (u ≤ u' ≤ u + others)%Z
  ∧ (r.1 = Ret tt → f' = (f + forks)%Z ∧ u' = (u + others)%Z)
  ∧ (forks + others = Z.of_nat (length items))%Z.
Proof.
  induction items as [|repo items IH]; intros s; simpl.
  { repeat split; lia. }
  pose proof (github_process_repo_counts repo s) as Hone.
  destruct (Github.process_repo repr repo s) as [r1 s1] eqn:Hrun.
  specialize (Hone r1 s1 eq_refl).
  pose proof (count_where_nonneg is_fork items) as Hf0.
  pose proof (count_where_nonneg (λ repo, negb (is_fork repo)) items) as Hu0.
  simpl in Hone. unfold bind. rewrite Hrun.
  destruct r1 as [[]|e|]; simpl in *.
  - specialize (IH s1). simpl in IH.
    destruct IH as (IHf & IHu & IHret & IHlen), Hone as [Hf Hu].
    rewrite Hf, Hu in *.
    destruct (for_each items (Github.process_repo repr) s1) as [r2 s2];
      simpl in *.
    destruct (is_fork repo); simpl;
      (split; [lia|]; split; [lia|]; split; [|lia];
       intros Hr; destruct (IHret Hr); lia).
  - specialize (IH s1). simpl in IH. destruct IH as (_ & _ & _ & IHlen).
    destruct (is_fork repo); simpl;
      (destruct Hone as [[-> ->]|[-> ->]];
       (split; [lia|]; split; [lia|]; split; [discriminate|lia])).
  - specialize (IH s1). simpl in IH. destruct IH as (_ & _ & _ & IHlen).
    destruct (is_fork repo); simpl;
      (destruct Hone as [[-> ->]|[-> ->]];
       (split; [lia|]; split; [lia|]; split; [discriminate|lia])).
Qed.

End GithubCount.

Section BitbucketCount.
Context {W : Type} `{!Transport W}.

Lemma bitbucket_languages_repos language (s : Bitbucket.t * net W) :
  Bitbucket.repos (Bitbucket.update_languages language s).2.1
  = Bitbucket.repos s.1.
Proof.
  destruct s as [self n]. unfold Bitbucket.update_languages.
  run_all; reflexivity.
Qed.

Lemma bitbucket_watchers_repos fuel repo (s : Bitbucket.t * net W) :
  Bitbucket.repos (Bitbucket.update_watchers_count fuel repo s).2.1
  = Bitbucket.repos s.1.
Proof.
  destruct s as [self n]. unfold Bitbucket.update_watchers_count.
  unfold bind, lift, lift_res, get_local, set_local. simpl.
  destruct (Bitbucket.py_split repo); simpl; try reflexivity.
  destruct (Bitbucket.get_all_results _ _ _ n) as [[v|e|] n1]; simpl;
    try reflexivity.
  destruct (Bitbucket.add_count (Bitbucket.watchers self) v); reflexivity.
Qed.

Lemma bitbucket_repo_count_bumps link (s : Bitbucket.t * net W) r s' :
  Bitbucket.update_repo_count link s = (r, s') →
  let f := Bitbucket.forked (Bitbucket.repos s.1) in
  let u := Bitbucket.unforked (Bitbucket.repos s.1) in
  let f' := Bitbucket.forked (Bitbucket.repos s'.1) in
  let u' := Bitbucket.unforked (Bitbucket.repos s'.1) in
  match r with
  | Ret _ => (f' = (f + 1)%Z ∧ u' = u) ∨ (f' = f ∧ u' = (u + 1)%Z)
  | _ => f' = f ∧ u' = u
  end.
Proof.
  destruct s as [self n]. unfold Bitbucket.update_repo_count.
  unfold try_except, bind, lift, lift_res, get_local, set_local. simpl.
  destruct (Bitbucket.make_api_call link n) as [[fork|e|] n1]; simpl.
  - destruct (getitem fork "values") as [v|e|]; simpl.
    + destruct (truthy v); simpl; intros [= <- <-]; simpl; auto.
    + destruct (decide (e = ValueError)); simpl; intros [= <- <-]; simpl; auto.
    + intros [= <- <-]; simpl; auto.
  - destruct (decide (e = ValueError)); simpl; intros [= <- <-]; simpl; auto.
  - intros [= <- <-]; simpl; auto.
Qed.

Lemma bitbucket_process_repo_counts fuel repo (s : Bitbucket.t * net W) r s' :
  Bitbucket.process_repo fuel repo s = (r, s') →
  let f := Bitbucket.forked (Bitbucket.repos s.1) in
  let u := Bitbucket.unforked (Bitbucket.repos s.1) in
  let f' := Bitbucket.forked (Bitbucket.repos s'.1) in
  let u' := Bitbucket.unforked (Bitbucket.repos s'.1) in
  let counted := (f' = (f + 1)%Z ∧ u' = u) ∨ (f' = f ∧ u' = (u + 1)%Z) in
  match r with
  | Ret _ => counted
  | _ => (f' = f ∧ u' = u) ∨ counted
  end.
Proof.
  unfold Bitbucket.process_repo, bind, lift_res.
  destruct (getitem repo "language") as [language|e|];
    try (intros [= <- <-]; left; split; reflexivity).
  pose proof (bitbucket_languages_repos language s) as H1.
  destruct (Bitbucket.update_languages language s) as [[[]|e|] s1];
    simpl in H1; rewrite <- H1;
    try (intros [= <- <-]; left; split; reflexivity).
  destruct (getitem repo "links") as [links|e|];
    try (intros [= <- <-]; left; split; reflexivity).
  destruct (getitem links "forks") as [forks|e|];
    try (intros [= <- <-]; left; split; reflexivity).
  destruct (getitem forks "href") as [href|e|];
    try (intros [= <- <-]; left; split; reflexivity).
  pose proof (bitbucket_repo_count_bumps href s1) as H2.
  destruct (Bitbucket.update_repo_count href s1) as [r2 s2].
  specialize (H2 r2 s2 eq_refl). simpl in H2. revert H2.
  generalize (Bitbucket.repos s1.1). intros r0 H2.
  destruct r2 as [[]|e|]; try (intros [= <- <-]; left; exact H2).
  destruct (getitem repo "name") as [name|e|];
    try (intros [= <- <-]; right; exact H2).
  pose proof (bitbucket_watchers_repos fuel name s2) as H3.
  destruct (Bitbucket.update_watchers_count fuel name s2) as [[[]|e|] s3];
    simpl in H3; rewrite <- H3 in H2;
    intros [= <- <-]; first [exact H2|right; exact H2].
Qed.

(** X13.  The loop of the Bitbucket [process_repos] counts each repository
    once, as forked or as unforked: when the loop completes, the two
    counters together have grown by the number of repositories in the
    listing; when it is cut short by an exception or does not end, they
    have grown by no more than that; and neither counter ever goes down. *)
Theorem bitbucket_counts_each_repository fuel items :
  ∀ s : Bitbucket.t * net W,
  let r := for_each items (Bitbucket.process_repo fuel) s in
  let f := Bitbucket.forked (Bitbucket.repos s.1) in
  let u := Bitbucket.unforked (Bitbucket.repos s.1) in
  let f' := Bitbucket.forked (Bitbucket.repos r.2.1) in
  let u' := Bitbucket.unforked (Bitbucket.repos r.2.1) in
  (f ≤ f')%Z ∧ (u ≤ u')%Z
  ∧ (f' + u' ≤ f + u + Z.of_nat (length items))%Z
  ∧ (r.1 = Ret tt → (f' + u' = f + u + Z.of_nat (length items))%Z).
Proof.
  induction items as [|repo items IH]; intros s.
  { simpl. repeat split; lia. }
  pose proof (bitbucket_process_repo_counts fuel repo s) as Hone.
  destruct (Bitbucket.process_repo fuel repo s) as [r1 s1] eqn:Hrun.
  specialize (Hone r1 s1 eq_refl). simpl in Hone.
  cbn [for_each]. unfold bind. rewrite Hrun.
  destruct r1 as [[]|e|].
  - specialize (IH s1). cbv zeta in IH |- *.
    destruct IH as (IHf & IHu & IHle & IHret).
    destruct (for_each items (Bitbucket.process_repo fuel) s1) as [r2 s2].
    cbn [fst snd length] in *.
    split; [lia|]. split; [lia|]. split; [lia|].
    intros Hr. specialize (IHret Hr). lia.
  - cbv zeta. cbn [fst snd length].
    split; [lia|]. split; [lia|]. split; [lia|]. discriminate.
  - cbv zeta. cbn [fst snd length].
    split; [lia|]. split; [lia|]. split; [lia|]. discriminate.
Qed.

End BitbucketCount.

Section GithubWatchers.
Context {W : Type} `{!Transport W}.
Context (repr : value → string).

Lemma github_languages_watchers repo (s : Github.t * net W) :
  Github.watchers (Github.update_languages repr repo s).2.1
  = Github.watchers s.1.
Proof.
  destruct s as [self n]. unfold Github.update_languages. run_all; reflexivity.
Qed.

Lemma github_repo_count_watchers fork (s : Github.t * net W) :
  Github.update_repo_count fork s
  = (Ret tt, ((Github.update_repo_count fork s).2.1, s.2))
  ∧ Github.watchers (Github.update_repo_count fork s).2.1
    = Github.watchers s.1.
Proof.
  destruct s as [self n]. unfold Github.update_repo_count.
  unfold bind, get_local, set_local. simpl.
  destruct (truthy fork); split; reflexivity.
Qed.

Lemma github_topics_watchers topics (s : Github.t * net W) :
  Github.watchers (Github.update_topics topics s).2.1 = Github.watchers s.1.
Proof.
  destruct s as [self n]. unfold Github.update_topics. run_all; reflexivity.
Qed.

Lemma github_process_repo_watchers repo (s : Github.t * net W) r s' :
  Github.process_repo repr repo s = (r, s') →
  match r with
  | Ret _ => Github.watchers s'.1 = (Github.watchers s.1 + watchers_of repo)%Z
  | _ => Github.watchers s'.1 = Github.watchers s.1
  end.
Proof.
  unfold Github.process_repo, watchers_of, bind, lift_res.
  destruct (getitem repo "name") as [name|e|];
    try (intros [= <- <-]; reflexivity).
  pose proof (github_languages_watchers name s) as H1.
  destruct (Github.update_languages repr name s) as [[[]|e|] s1];
    simpl in H1; rewrite <- H1;
    try (intros [= <- <-]; reflexivity).
  destruct (getitem repo "fork") as [fork|e|];
    try (intros [= <- <-]; reflexivity).
  destruct (github_repo_count_watchers fork s1) as [H2 H2w].
  rewrite H2, <- H2w.
  generalize ((Github.update_repo_count fork s1).2.1). intros self2.
  destruct (py_get repo "topics") as [topics|e|];
    try (intros [= <- <-]; reflexivity).
  pose proof (github_topics_watchers topics (self2, s1.2)) as H3.
  destruct (Github.update_topics topics (self2, s1.2)) as [[[]|e|] s3];
    simpl in H3; rewrite <- H3;
    try (intros [= <- <-]; reflexivity).
  destruct s3 as [self n].
  destruct (getitem repo "watchers") as [watchers|e|];
    try (intros [= <- <-]; reflexivity).
  unfold Github.update_watchers_count, bind, lift_res, get_local, set_local.
  simpl.
  destruct watchers; simpl; intros [= <- <-]; reflexivity.
Qed.

(** X14.  The watcher count of the Github collector is the sum of the
    [watchers] fields of the repositories it has processed: after the loop
    of [process_repos], [watchers] has grown by the sum over the first [k]
    repositories of the listing, for some [k], and over all of them when
    the loop completes. *)
Theorem github_watchers_is_a_sum items : ∀ s : Github.t * net W,
  let r := for_each items (Github.process_repo repr) s in
  ∃ k : nat,
    (k ≤ length items)%nat
    ∧ Github.watchers r.2.1
      = (Github.watchers s.1 + sum_of watchers_of (take k items))%Z
    ∧ (r.1 = Ret tt → k = length items).
Proof.
  induction items as [|repo items IH]; intros s.
  { exists 0%nat. simpl. repeat split; lia. }
  pose proof (github_process_repo_watchers repo s) as Hone.
  destruct (Github.process_repo repr repo s) as [r1 s1] eqn:Hrun.
  specialize (Hone r1 s1 eq_refl).
  cbn [for_each]. unfold bind. rewrite Hrun.
  destruct r1 as [[]|e|].
  - destruct (IH s1) as (k & Hk & Hsum & Hret). cbv zeta in *.
    exists (S k). cbn [length take sum_of].
    split; [lia|]. split; [lia|]. intros Hr. rewrite (Hret Hr). reflexivity.
  - exists 0%nat. cbv zeta. cbn [fst snd length take sum_of].
    split; [lia|]. split; [lia|]. discriminate.
  - exists 0%nat. cbv zeta. cbn [fst snd length take sum_of].
    split; [lia|]. split; [lia|]. discriminate.
Qed.

End GithubWatchers.
